(** * PMT positions of the XENON1T top and bottom arrays

    A shallow embedding of [examples/PMT_positions_1T.ipynb] and the
    properties of the position map it builds.

    Conventions of the embedding.
    - Python [int] is [Z]; Python [float] (and numpy's float64) is idealised
      as a real number [R]: [np.cos], [np.sin], [np.sqrt] and [np.pi] are
      [cos], [sin], [sqrt] and [PI], and an int used in float arithmetic is
      injected with [IZR].  Rounding is not modelled.
    - A Python list (and a numpy array used as one) is a [list]; subscripting
      follows Python: a negative index counts from the end, and an index
      outside the list raises [IndexError].
    - A computation that may raise is a value of [result]; the [while] loops
      run on fuel, and running out of fuel is the third outcome [OutOfFuel];
      the two loops of the notebook get [len(array)] units, which is shown
      to be enough on every input. *)

From Stdlib Require Import String DecimalString.
From Stdlib Require Import ZArith List Bool Reals Lra Lia Psatz.
Import ListNotations.

Open Scope Z_scope.

(** ** Exceptions and the error monad *)

Inductive exn : Type :=
| IndexError.

Inductive result (A : Type) : Type :=
| Ok (a : A)
| Raise (e : exn)
| OutOfFuel.

Arguments Ok {A} a.
Arguments Raise {A} e.
Arguments OutOfFuel {A}.

Definition bind {A B : Type} (m : result A) (k : A -> result B) : result B :=
  match m with
  | Ok a => k a
  | Raise e => Raise e
  | OutOfFuel => OutOfFuel
  end.

Notation "x <- m ;; k" := (bind m (fun x => k))
  (at level 61, m at next level, right associativity).
Notation "' pat <- m ;; k" := (bind m (fun x => match x with pat => k end))
  (at level 61, pat pattern, m at next level, right associativity).

(** ** Python lists *)

(** [range(a, b)] *)
Definition range (a b : Z) : list Z :=
  map (fun k => a + Z.of_nat k) (seq 0 (Z.to_nat (b - a))).

(** [len(l)] *)
Definition len {A : Type} (l : list A) : Z := Z.of_nat (length l).

(** The position a subscript [i] denotes in a list of length [n]. *)
Definition norm_index (n i : Z) : Z := if i <? 0 then i + n else i.

(** [l[i]] *)
Definition getitem {A : Type} (l : list A) (i : Z) : result A :=
  let j := norm_index (len l) i in
  if (0 <=? j) && (j <? len l) then
    match nth_error l (Z.to_nat j) with
    | Some a => Ok a
    | None => Raise IndexError
    end
  else Raise IndexError.

Fixpoint replace_nth {A : Type} (l : list A) (k : nat) (v : A) : list A :=
  match l, k with
  | [], _ => []
  | _ :: t, O => v :: t
  | h :: t, S k' => h :: replace_nth t k' v
  end.

(** [l[i] = v] *)
Definition setitem {A : Type} (l : list A) (i : Z) (v : A) : result (list A) :=
  let j := norm_index (len l) i in
  if (0 <=? j) && (j <? len l) then Ok (replace_nth l (Z.to_nat j) v)
  else Raise IndexError.

(** [[f(i) for i in l]] where [f] may raise. *)
Fixpoint comprehension {A B : Type} (f : A -> result B) (l : list A)
  : result (list B) :=
  match l with
  | [] => Ok []
  | a :: t => b <- f a ;; bs <- comprehension f t ;; Ok (b :: bs)
  end.

(** [for i in l: acc = step(acc, i)] *)
Fixpoint for_each {A S : Type} (l : list A) (step : S -> A -> result S) (s : S)
  : result S :=
  match l with
  | [] => Ok s
  | a :: t => s' <- step s a ;; for_each t step s'
  end.

(** [while cond(s): s = body(s)], on [fuel] evaluations of the guard. *)
Fixpoint while {S : Type} (fuel : nat) (cond : S -> bool)
  (body : S -> result S) (s : S) : result S :=
  match fuel with
  | O => OutOfFuel
  | Datatypes.S fuel' =>
      if cond s then s' <- body s ;; while fuel' cond body s' else Ok s
  end.

(** ** The notebook *)

Open Scope R_scope.

(** Some constants taken from the XENON1T MC (cm). *)
Definition PMT_distance_top : R := 7.95.
Definition PMT_distance_bottom : R := 8.0.
Definition PMTOuterRingRadius : R := 3.875.

Definition position : Type := (R * R)%type.

(** The loop of [get_pmt_positions_top]:
    [while number > iTotal: index1 += 1; iTotal += array[index1]]. *)
Definition top_loop (fuel : nat) (array : list Z) (number : Z) (st : Z * Z)
  : result (Z * Z) :=
  while fuel
    (fun '(index1, iTotal) => (number >? iTotal)%Z)
    (fun '(index1, iTotal) =>
       let index1 := (index1 + 1)%Z in
       a <- getitem array index1 ;;
       Ok (index1, (iTotal + a)%Z))
    st.

Definition get_pmt_positions_top (number : Z) : result position :=
  array <- setitem (map (fun i => i * 6)%Z (range 0 7)) 0 1%Z ;;
  let radius := map (fun i => IZR i * PMT_distance_top) (range 0 7) in
  let index1 := 0%Z in
  iTotal <- getitem array 0 ;;
  '(index1, iTotal) <- top_loop (length array) array number (index1, iTotal) ;;
  a <- getitem array index1 ;;
  let index2 := (number + a - iTotal)%Z in
  rx <- getitem radius index1 ;;
  ax <- getitem array index1 ;;
  let x := rx * cos (IZR index2 * PI * 2 / IZR ax) in
  ry <- getitem radius index1 ;;
  ay <- getitem array index1 ;;
  let y := ry * sin (IZR index2 * PI * 2 / IZR ay) in
  Ok (x, y).

(** The loop of [get_pmt_positions_bottom]:
    [while number > n_pmts_top+iTotal: index1 += 1; iTotal += array[index1]]. *)
Definition bottom_loop (fuel : nat) (array : list Z) (n_pmts_top number : Z)
  (st : Z * Z) : result (Z * Z) :=
  while fuel
    (fun '(index1, iTotal) => (number >? n_pmts_top + iTotal)%Z)
    (fun '(index1, iTotal) =>
       let index1 := (index1 + 1)%Z in
       a <- getitem array index1 ;;
       Ok (index1, (iTotal + a)%Z))
    st.

Definition get_pmt_positions_bottom (number : Z) : result position :=
  let row_distance := sqrt 3 / 2 * PMT_distance_bottom in
  let n_rows := 13%Z in
  let n_pmts_top := 127%Z in
  let array := [5; 8; 9; 10; 11; 12; 11; 12; 11; 10; 9; 8; 5]%Z in
  let PMTsRowOffset : list R := [] in
  PMTsRowOffset <-
    for_each (range 0 n_rows)
      (fun PMTsRowOffset i =>
         a <- getitem array i ;;
         Ok (PMTsRowOffset ++ [-0.5 * (IZR a - 1) * PMT_distance_bottom]))
      PMTsRowOffset ;;
  let index1 := 0%Z in
  iTotal <- getitem array 0 ;;
  '(index1, iTotal) <- bottom_loop (length array) array n_pmts_top number (index1, iTotal) ;;
  a <- getitem array index1 ;;
  let index2 := (number + a - iTotal - (n_pmts_top + 1))%Z in
  off <- getitem PMTsRowOffset index1 ;;
  let x := off + IZR index2 * PMT_distance_bottom in
  let y := (0.5 * (IZR n_rows - 1) - IZR index1) * row_distance in
  Ok (x, y).

(** rotate tuple over certain angle *)
Definition rotate (pos : position) (angle : R) : position :=
  (fst pos * cos angle - snd pos * sin angle,
   fst pos * sin angle + snd pos * cos angle).

Definition rotation_angle_top : R := PI / 2 + (3 / 72) * 2 * PI.

Definition positions_top : result (list position) :=
  positions_top <- comprehension get_pmt_positions_top (range 1 128) ;;
  Ok (map (fun pos => rotate pos rotation_angle_top) positions_top).

Definition xs_top : result (list R) := p <- positions_top ;; Ok (map fst p).
Definition ys_top : result (list R) := p <- positions_top ;; Ok (map snd p).

Definition rotation_angle_bottom : R := PI / 8.

Definition positions_bottom : result (list position) :=
  positions_bottom <-
    comprehension get_pmt_positions_bottom (range 128 (121 + 127 + 1)) ;;
  Ok (map (fun pos => rotate pos rotation_angle_bottom) positions_bottom).

Definition xs_bottom : result (list R) := p <- positions_bottom ;; Ok (map fst p).
Definition ys_bottom : result (list R) := p <- positions_bottom ;; Ok (map snd p).

(** An entry [{'x': ..., 'y': ...}] of the final list. *)
Record location : Type := { loc_x : R; loc_y : R }.

(** make the final list: 127 top pmts + 121 bottom pmts *)
Definition pmt_locations : result (list location) :=
  xs_top <- xs_top ;;
  ys_top <- ys_top ;;
  xs_bottom <- xs_bottom ;;
  ys_bottom <- ys_bottom ;;
  let pmt_locations : list location := [] in
  pmt_locations <-
    for_each (range 0 127)
      (fun pmt_locations i =>
         vx <- getitem xs_top (127 - 1 - i)%Z ;;
         vy <- getitem ys_top (127 - 1 - i)%Z ;;
         Ok (pmt_locations ++ [{| loc_x := vx; loc_y := vy |}]))
      pmt_locations ;;
  for_each (range 0 121)
    (fun pmt_locations i =>
       vx <- getitem xs_bottom i ;;
       vy <- getitem ys_bottom i ;;
       Ok (pmt_locations ++ [{| loc_x := vx; loc_y := vy |}]))
    pmt_locations.

(** [pmt_locations[ch]] as an (x, y) pair, the accessor the plots use. *)
Definition pmt_position (ch : Z) : result position :=
  locs <- pmt_locations ;;
  l <- getitem locs ch ;;
  Ok (loc_x l, loc_y l).

(** ** Specification-side vocabulary *)

Open Scope Z_scope.

(** PMTs per ring of the top array and per row of the bottom array. *)
Definition ring_counts : list Z := [1; 6; 12; 18; 24; 30; 36].
Definition row_counts : list Z := [5; 8; 9; 10; 11; 12; 11; 12; 11; 10; 9; 8; 5].

(** [counts[r]], 0 outside the table. *)
Definition count_at (counts : list Z) (r : Z) : Z :=
  if r <? 0 then 0 else nth (Z.to_nat r) counts 0.

(** Number of PMTs in the parts [0..r] of a table of counts. *)
Definition cumulative (counts : list Z) (r : Z) : Z :=
  fold_right Z.add 0 (firstn (Z.to_nat (r + 1)) counts).

(** [r] is the smallest index whose cumulative count reaches [n]. *)
Definition smallest_reaching (counts : list Z) (n r : Z) : Prop :=
  0 <= r < len counts /\
  n <= cumulative counts r /\
  forall j, 0 <= j < r -> cumulative counts j < n.

(** Squared Euclidean distance between two positions, and distance of a
    position from the origin. *)
Definition dist2 (p q : position) : R :=
  ((fst p - fst q) * (fst p - fst q) + (snd p - snd q) * (snd p - snd q))%R.

Definition norm (p : position) : R :=
  sqrt (fst p * fst p + snd p * snd p).


(** The comparisons the scan of the rings performs, in order, with the
    state it stops in; past the last ring the subscript [array[7]] raises. *)
Definition top_cascade (number : Z) : result (Z * Z) :=
  if number >? 1 then
    if number >? 7 then
      if number >? 19 then
        if number >? 37 then
          if number >? 61 then
            if number >? 91 then
              if number >? 127 then Raise IndexError else Ok (6, 127)
            else Ok (5, 91)
          else Ok (4, 61)
        else Ok (3, 37)
      else Ok (2, 19)
    else Ok (1, 7)
  else Ok (0, 1).

(** The same for the scan of the rows; past the last row [array[13]] raises. *)
Definition bottom_cascade (number : Z) : result (Z * Z) :=
  if number >? 127 + 5 then
   if number >? 127 + 13 then
    if number >? 127 + 22 then
     if number >? 127 + 32 then
      if number >? 127 + 43 then
       if number >? 127 + 55 then
        if number >? 127 + 66 then
         if number >? 127 + 78 then
          if number >? 127 + 89 then
           if number >? 127 + 99 then
            if number >? 127 + 108 then
             if number >? 127 + 116 then
              if number >? 127 + 121 then Raise IndexError else Ok (12, 121)
             else Ok (11, 116)
            else Ok (10, 108)
           else Ok (9, 99)
          else Ok (8, 89)
         else Ok (7, 78)
        else Ok (6, 66)
       else Ok (5, 55)
      else Ok (4, 43)
     else Ok (3, 32)
    else Ok (2, 22)
   else Ok (1, 13)
  else Ok (0, 5).

(** The point of ring [r] of the top array at place [within], counted
    from 1 around the ring. *)
Definition ring_point (r within : Z) : position :=
  (IZR r * PMT_distance_top *
     cos (IZR within * PI * 2 / IZR (count_at ring_counts r)),
   IZR r * PMT_distance_top *
     sin (IZR within * PI * 2 / IZR (count_at ring_counts r)))%R.

(** Horizontal offset of row [r] of the bottom array. *)
Definition row_offset (r : Z) : R :=
  (-0.5 * (IZR (count_at row_counts r) - 1) * PMT_distance_bottom)%R.

(** The point of row [r] of the bottom array at place [k] along the row. *)
Definition row_point (r k : Z) : position :=
  (row_offset r + IZR k * PMT_distance_bottom,
   (0.5 * (IZR 13 - 1) - IZR r) * (sqrt 3 / 2 * PMT_distance_bottom))%R.

(** Place of generation number [n] within row [r], counted from 1 and
    counted from 0. *)
Definition within_from_1 (n r : Z) : Z := n - 127 - cumulative row_counts (r - 1).
Definition within_from_0 (n r : Z) : Z := n - 128 - cumulative row_counts (r - 1).

(** The scan of [get_pmt_positions_bottom] stops in row [r]. *)
Definition in_row (n r : Z) : Prop :=
  exists iTotal,
    bottom_loop (length row_counts) row_counts 127 n (0, 5) = Ok (r, iTotal).

(** The value a call returns, for the calls that return. *)
Definition returned (m : result position) : position :=
  match m with Ok p => p | _ => (0, 0)%R end.


(** Channels of the assembled list, by array. *)
Definition top_channel (i : Z) : position :=
  rotate (returned (get_pmt_positions_top (127 - i))) rotation_angle_top.

Definition bottom_channel (i : Z) : position :=
  rotate (returned (get_pmt_positions_bottom (128 + i))) rotation_angle_bottom.

Definition as_location (p : position) : location :=
  {| loc_x := fst p; loc_y := snd p |}.

Definition same_array (c1 c2 : Z) : Prop :=
  (0 <= c1 <= 126 /\ 0 <= c2 <= 126) \/ (127 <= c1 <= 247 /\ 127 <= c2 <= 247).


(** ** The scan in general *)

(** What the scan of a table of counts may end in: it stops at the smallest
    index whose running total reaches [target], holding that total; or it
    raises because no running total of the table reaches [target]; it
    never runs out of fuel. *)
Definition scan_outcome (array : list Z) (target : Z) (out : result (Z * Z)) : Prop :=
  match out with
  | Ok (r, tot) => smallest_reaching array target r /\ tot = cumulative array r
  | Raise IndexError => forall j, 0 <= j < len array -> cumulative array j < target
  | OutOfFuel => False
  end.


(** ** The plots

    The plotting cells are modelled by what they hand to matplotlib: the
    artists added to the current figure, in order, with their text and
    coordinates, and the axis limits, labels and title.  Sizes, colours and
    fonts are left out. *)

(** [str(i)] for an int. *)
Definition str (i : Z) : string := NilZero.string_of_int (Z.to_int i).

(** What a plotting call adds to the current figure. *)
Inductive artist : Type :=
| Scatter (xs ys : list R)
| Annotate (text : string) (xy : position)
| AnnotateArrow (text : string) (xy xytext : position)
| Circle (centre : position) (radius : R)
| Text (xy : position) (text : string).

(** A figure as [plt.show()] finds it. *)
Record figure : Type := {
  fig_xlim : R * R;
  fig_ylim : R * R;
  fig_artists : list artist;
  fig_xlabel : string;
  fig_ylabel : string;
  fig_title : string
}.

(** The check plot of the top array:
    [plt.scatter(xs_top, ys_top, ...)] and then
    [for i in range(127): plt.annotate(str(126-i), xy=(xs_top[i]-1.5, ys_top[i]-0.8))]. *)
Definition check_plot_top : result (list artist) :=
  xs_top <- xs_top ;;
  ys_top <- ys_top ;;
  let fig := [Scatter xs_top ys_top] in
  for_each (range 0 127)
    (fun fig i =>
       vx <- getitem xs_top i ;;
       vy <- getitem ys_top i ;;
       Ok (fig ++ [Annotate (str (126 - i)) (vx - 1.5, vy - 0.8)%R]))
    fig.

(** The check plot of the bottom array, labelled [str(127+i)]. *)
Definition check_plot_bottom : result (list artist) :=
  xs_bottom <- xs_bottom ;;
  ys_bottom <- ys_bottom ;;
  let fig := [Scatter xs_bottom ys_bottom] in
  for_each (range 0 121)
    (fun fig i =>
       vx <- getitem xs_bottom i ;;
       vy <- getitem ys_bottom i ;;
       Ok (fig ++ [Annotate (str (127 + i)) (vx - 1.5, vy - 0.8)%R]))
    fig.

(** The last plotting cell. *)
Definition top_channels : list Z := range 0 127.
Definition bottom_channels : list Z := range 127 (247 + 1).
Definition plot_radius : Z := 60.

(** The first figure of the last cell: one circle of radius
    [PMTOuterRingRadius] and one label per top channel, then the fixed
    annotations. *)
Definition final_plot_top : result figure :=
  pmt_locations <- pmt_locations ;;
  let xlim := (IZR (- plot_radius), IZR plot_radius) in
  let ylim := (IZR (- plot_radius), IZR plot_radius) in
  artists <-
    for_each top_channels
      (fun fig ch =>
         cx <- getitem pmt_locations ch ;;
         cy <- getitem pmt_locations ch ;;
         let fig := fig ++ [Circle (loc_x cx, loc_y cy) PMTOuterRingRadius] in
         tx <- getitem pmt_locations ch ;;
         ty <- getitem pmt_locations ch ;;
         Ok (fig ++ [Annotate (str ch) (loc_x tx - 1.4, loc_y ty - 0.8)%R]))
      [] ;;
  Ok {| fig_xlim := xlim;
        fig_ylim := ylim;
        fig_artists :=
          artists ++
          [AnnotateArrow " WT Door" (IZR 40, IZR 58) (IZR 40, IZR 45);
           AnnotateArrow " Building" (IZR 40, IZR (-58)) (IZR 40, IZR (-45));
           Text (IZR (-55), IZR 55) "As seen from above"];
        fig_xlabel := "x [cm]";
        fig_ylabel := "y [cm]";
        fig_title := "XENON1T Top PMT array" |}.

(** The second figure of the last cell, for the bottom channels. *)
Definition final_plot_bottom : result figure :=
  pmt_locations <- pmt_locations ;;
  let xlim := (IZR (- plot_radius), IZR plot_radius) in
  let ylim := (IZR (- plot_radius), IZR plot_radius) in
  artists <-
    for_each bottom_channels
      (fun fig ch =>
         cx <- getitem pmt_locations ch ;;
         cy <- getitem pmt_locations ch ;;
         let fig := fig ++ [Circle (loc_x cx, loc_y cy) PMTOuterRingRadius] in
         tx <- getitem pmt_locations ch ;;
         ty <- getitem pmt_locations ch ;;
         Ok (fig ++ [Annotate (str ch) (loc_x tx - 1.7, loc_y ty - 0.8)%R]))
      [] ;;
  Ok {| fig_xlim := xlim;
        fig_ylim := ylim;
        fig_artists :=
          artists ++
          [AnnotateArrow " WT Door" (IZR 40, IZR 58) (IZR 40, IZR 45);
           AnnotateArrow " Building" (IZR 40, IZR (-58)) (IZR 40, IZR (-45));
           Text (IZR (-55), IZR 55) "As seen from above"];
        fig_xlabel := "x [cm]";
        fig_ylabel := "y [cm]";
        fig_title := "XENON1T Bottom PMT array" |}.

(** A circle lies inside the axes of a figure. *)
Definition inside_axes (f : figure) (centre : position) (radius : R) : Prop :=
  (fst (fig_xlim f) <= fst centre - radius /\ fst centre + radius <= snd (fig_xlim f) /\
   fst (fig_ylim f) <= snd centre - radius /\ snd centre + radius <= snd (fig_ylim f))%R.


(** The three fixed annotations of a final plot. *)
Definition decorations : list artist :=
  [AnnotateArrow " WT Door" (IZR 40, IZR 58) (IZR 40, IZR 45);
   AnnotateArrow " Building" (IZR 40, IZR (-58)) (IZR 40, IZR (-45));
   Text (IZR (-55), IZR 55) "As seen from above"].

(** What a final plot draws for one channel. *)
Definition drawn_channel (dx : R) (centre : Z -> position) (ch : Z) : list artist :=
  [Circle (centre ch) PMTOuterRingRadius;
   Annotate (str ch) (fst (centre ch) - dx, snd (centre ch) - 0.8)%R].

(** Centre of a channel of the assembled list. *)
Definition channel_centre (ch : Z) : position :=
  if ch <=? 126 then top_channel ch else bottom_channel (ch - 127).


(** ** Lists, subscripts and loops *)

Section ListFacts.
Context {A B : Type}.

Lemma getitem_nth_error (l : list A) (i : Z) :
  0 <= i < len l ->
  getitem l i =
    match nth_error l (Z.to_nat i) with Some a => Ok a | None => Raise IndexError end.
Proof.
  intros Hi. unfold getitem, norm_index.
  destruct (Z.ltb_spec i 0); [lia|].
  destruct (Z.leb_spec 0 i); [|lia].
  destruct (Z.ltb_spec i (len l)); [|lia].
  reflexivity.
Qed.

Lemma getitem_nth (d : A) (l : list A) (i : Z) :
  0 <= i < len l -> getitem l i = Ok (nth (Z.to_nat i) l d).
Proof.
  intros Hi. rewrite getitem_nth_error by assumption.
  destruct (nth_error l (Z.to_nat i)) eqn:E.
  - now rewrite (nth_error_nth _ _ d E).
  - apply nth_error_None in E. unfold len in Hi. lia.
Qed.

Lemma len_map (f : A -> B) (l : list A) : len (map f l) = len l.
Proof. unfold len. now rewrite length_map. Qed.

Lemma getitem_map (f : A -> B) (l : list A) (i : Z) :
  getitem (map f l) i = (a <- getitem l i ;; Ok (f a)).
Proof.
  unfold getitem. rewrite len_map.
  destruct ((0 <=? norm_index (len l) i) && (norm_index (len l) i <? len l));
    [|reflexivity].
  rewrite nth_error_map.
  now destruct (nth_error l (Z.to_nat (norm_index (len l) i))).
Qed.

(** A comprehension over a list on which [f] returns builds the list of
    the returned values, in order. *)
Lemma comprehension_map (f : A -> result B) (g : A -> B) (l : list A) :
  (forall a, In a l -> f a = Ok (g a)) ->
  comprehension f l = Ok (map g l).
Proof.
  induction l as [|a t IH]; intros H; simpl; [reflexivity|].
  rewrite (H a) by now left. simpl.
  rewrite IH by (intros; apply H; now right). reflexivity.
Qed.

End ListFacts.

Lemma len_range (a b : Z) : a <= b -> len (range a b) = b - a.
Proof.
  intros H. unfold len, range. rewrite length_map, length_seq. lia.
Qed.

Lemma getitem_range (a b i : Z) :
  0 <= i < b - a -> getitem (range a b) i = Ok (a + i).
Proof.
  intros H. rewrite getitem_nth_error by (rewrite len_range; lia).
  unfold range. rewrite nth_error_map.
  rewrite (nth_error_nth' _ 0%nat) by (rewrite length_seq; lia).
  rewrite seq_nth by lia. simpl. f_equal. lia.
Qed.

Lemma in_range (a b n : Z) : In n (range a b) <-> a <= n < b.
Proof.
  unfold range. rewrite in_map_iff. split.
  - intros (k & <- & Hk). apply in_seq in Hk. lia.
  - intros H. exists (Z.to_nat (n - a)). split; [lia|]. apply in_seq. lia.
Qed.

(** More fuel never changes the outcome of a loop that finished. *)
Lemma while_more_fuel {S : Type} (cond : S -> bool) (body : S -> result S) :
  forall (fuel extra : nat) (s : S),
    while fuel cond body s <> OutOfFuel ->
    while (fuel + extra) cond body s = while fuel cond body s.
Proof.
  induction fuel as [|fuel IH]; intros extra s H; simpl in *; [congruence|].
  destruct (cond s); [|reflexivity].
  destruct (body s) as [s'| |]; simpl in *; try reflexivity.
  now apply IH.
Qed.

Lemma getitem_app_l {A : Type} (l1 l2 : list A) (i : Z) :
  0 <= i < len l1 -> getitem (l1 ++ l2) i = getitem l1 i.
Proof.
  intros H.
  rewrite !getitem_nth_error by (unfold len in *; rewrite ?length_app; lia).
  rewrite nth_error_app1; [reflexivity | unfold len in H; lia].
Qed.

Lemma getitem_app_r {A : Type} (l1 l2 : list A) (i : Z) :
  0 <= i < len l2 -> getitem (l1 ++ l2) (len l1 + i) = getitem l2 i.
Proof.
  intros H.
  rewrite !getitem_nth_error by (unfold len in *; rewrite ?length_app; lia).
  rewrite nth_error_app2 by (unfold len in *; lia).
  assert (Z.to_nat (len l1 + i) - length l1 = Z.to_nat i)%nat as ->
    by (unfold len in *; lia).
  reflexivity.
Qed.

(** A loop that appends one value per round builds the list of the values. *)
Lemma for_each_append_map {A B : Type} (step : list B -> A -> result (list B))
  (g : A -> B) (l : list A) :
  (forall acc a, In a l -> step acc a = Ok (acc ++ [g a])) ->
  forall acc, for_each l step acc = Ok (acc ++ map g l).
Proof.
  induction l as [|a t IH]; intros H acc; simpl.
  - now rewrite app_nil_r.
  - rewrite (H acc a) by now left. simpl.
    rewrite IH by (intros; apply H; now right).
    now rewrite <- app_assoc.
Qed.

(** ** Cumulative counts *)

Lemma sum_firstn_mono (l : list Z) :
  Forall (fun c => 0 <= c) l ->
  forall a b : nat, (a <= b)%nat ->
    fold_right Z.add 0 (firstn a l) <= fold_right Z.add 0 (firstn b l).
Proof.
  induction 1 as [|c l Hc Hl IH]; intros a b Hab.
  - rewrite !firstn_nil. lia.
  - destruct a as [|a]; destruct b as [|b]; simpl; try lia.
    + specialize (IH 0%nat b). simpl in IH. lia.
    + specialize (IH a b). lia.
Qed.

Lemma cumulative_mono (counts : list Z) (i j : Z) :
  Forall (fun c => 0 <= c) counts -> i <= j ->
  cumulative counts i <= cumulative counts j.
Proof. intros H Hij. apply sum_firstn_mono; [assumption | lia]. Qed.

Lemma sum_firstn_succ (l : list Z) (k : nat) :
  fold_right Z.add 0 (firstn (S k) l) =
  fold_right Z.add 0 (firstn k l) + nth k l 0.
Proof.
  revert k. induction l as [|c l IH]; intros k.
  - rewrite !firstn_nil. now destruct k.
  - destruct k as [|k].
    + simpl. lia.
    + change (firstn (S (S k)) (c :: l)) with (c :: firstn (S k) l).
      change (firstn (S k) (c :: l)) with (c :: firstn k l).
      change (nth (S k) (c :: l) 0) with (nth k l 0).
      cbn [fold_right]. rewrite IH. lia.
Qed.

Lemma count_at_cumulative (counts : list Z) (r : Z) :
  0 <= r ->
  cumulative counts r = cumulative counts (r - 1) + count_at counts r.
Proof.
  intros Hr. unfold cumulative, count_at.
  destruct (Z.ltb_spec r 0); [lia|].
  replace (Z.to_nat (r + 1)) with (S (Z.to_nat r)) by lia.
  replace (Z.to_nat (r - 1 + 1)) with (Z.to_nat r) by lia.
  apply sum_firstn_succ.
Qed.

Lemma ring_counts_nonneg : Forall (fun c => 0 <= c) ring_counts.
Proof. repeat constructor; lia. Qed.

Lemma row_counts_nonneg : Forall (fun c => 0 <= c) row_counts.
Proof. repeat constructor; lia. Qed.

(** [smallest_reaching] from the two neighbouring cumulative counts. *)
Lemma smallest_reaching_intro (counts : list Z) (n r : Z) :
  Forall (fun c => 0 <= c) counts ->
  0 <= r < len counts ->
  cumulative counts (r - 1) < n <= cumulative counts r ->
  smallest_reaching counts n r.
Proof.
  intros Hc Hr [Hlo Hhi]. split; [assumption|]. split; [assumption|].
  intros j Hj. pose proof (cumulative_mono counts j (r - 1) Hc). lia.
Qed.

Lemma smallest_reaching_unique (counts : list Z) (n r r' : Z) :
  smallest_reaching counts n r -> smallest_reaching counts n r' -> r = r'.
Proof.
  intros (Hr & Hn & Hmin) (Hr' & Hn' & Hmin').
  destruct (Z.lt_trichotomy r r') as [H | [H | H]]; [|assumption|].
  - specialize (Hmin' r). lia.
  - specialize (Hmin r'). lia.
Qed.

(** A number has one decomposition into a part and a place inside it. *)
Lemma decomposition_unique (counts : list Z) (r k r' k' : Z) :
  Forall (fun c => 0 <= c) counts ->
  0 <= r -> 0 <= r' ->
  0 <= k < count_at counts r -> 0 <= k' < count_at counts r' ->
  cumulative counts (r - 1) + k = cumulative counts (r' - 1) + k' ->
  r = r' /\ k = k'.
Proof.
  intros Hc Hr Hr' Hk Hk' Heq.
  pose proof (count_at_cumulative counts r Hr) as Hs.
  pose proof (count_at_cumulative counts r' Hr') as Hs'.
  destruct (Z.lt_trichotomy r r') as [H | [H | H]].
  - pose proof (cumulative_mono counts r (r' - 1) Hc). lia.
  - subst r'. split; [reflexivity | lia].
  - pose proof (cumulative_mono counts r' (r - 1) Hc). lia.
Qed.

(** ** The top array *)

Lemma top_array_value :
  setitem (map (fun i => i * 6) (range 0 7)) 0 1 = Ok ring_counts.
Proof. reflexivity. Qed.

(** The scan of the rings, on [len(array)] units of fuel or more, is the
    cascade of comparisons against the cumulative counts. *)
Lemma top_loop_unfold (number : Z) (extra : nat) :
  top_loop (length ring_counts + extra) ring_counts number (0, 1) =
  top_cascade number.
Proof. reflexivity. Qed.

Lemma top_loop_cascade (number : Z) :
  top_loop (length ring_counts) ring_counts number (0, 1) = top_cascade number.
Proof. exact (top_loop_unfold number 0). Qed.

Ltac split_gtb :=
  repeat match goal with
    | |- context [?a >? ?b] => destruct (Z.gtb_spec a b)
    end.

Lemma top_loop_fuel (number : Z) (fuel : nat) :
  (length ring_counts <= fuel)%nat ->
  top_loop fuel ring_counts number (0, 1) =
  top_loop (length ring_counts) ring_counts number (0, 1).
Proof.
  intros H.
  replace fuel with (length ring_counts + (fuel - length ring_counts))%nat by lia.
  now rewrite top_loop_unfold, top_loop_cascade.
Qed.

Lemma top_loop_total (number : Z) :
  top_loop (length ring_counts) ring_counts number (0, 1) <> OutOfFuel.
Proof.
  rewrite top_loop_cascade. unfold top_cascade. split_gtb; discriminate.
Qed.


Lemma top_loop_below (number : Z) :
  number <= 1 ->
  top_loop (length ring_counts) ring_counts number (0, 1) = Ok (0, 1).
Proof.
  intros H. rewrite top_loop_cascade. unfold top_cascade.
  split_gtb; solve [reflexivity | lia].
Qed.

Lemma top_loop_valid (number : Z) :
  1 <= number <= 127 ->
  exists r, 0 <= r <= 6 /\
    top_loop (length ring_counts) ring_counts number (0, 1) =
      Ok (r, cumulative ring_counts r) /\
    cumulative ring_counts (r - 1) < number <= cumulative ring_counts r.
Proof.
  intros H. rewrite top_loop_cascade. unfold top_cascade.
  split_gtb; try lia;
    [exists 6 | exists 5 | exists 4 | exists 3 | exists 2 | exists 1 | exists 0];
    (split; [lia|]); (split; [reflexivity|]);
    vm_compute cumulative; lia.
Qed.

Lemma ring_count_at (r : Z) :
  0 <= r <= 6 -> getitem ring_counts r = Ok (count_at ring_counts r).
Proof.
  intros H. rewrite (getitem_nth 0) by (vm_compute len; lia).
  unfold count_at. destruct (Z.ltb_spec r 0); [lia | reflexivity].
Qed.

Lemma ring_count_6r (r : Z) :
  1 <= r <= 6 -> count_at ring_counts r = 6 * r.
Proof.
  intros H.
  assert (r = 1 \/ r = 2 \/ r = 3 \/ r = 4 \/ r = 5 \/ r = 6) as Hr by lia.
  repeat destruct Hr as [-> | Hr]; try subst r; reflexivity.
Qed.

Lemma radius_at (r : Z) :
  0 <= r <= 6 ->
  getitem (map (fun i => IZR i * PMT_distance_top)%R (range 0 7)) r =
  Ok (IZR r * PMT_distance_top)%R.
Proof. intros H. rewrite getitem_map, getitem_range by lia. reflexivity. Qed.

(** What the function returns once its loop has stopped in ring [r]. *)
Lemma get_pmt_positions_top_of_loop (number r tot : Z) :
  top_loop (length ring_counts) ring_counts number (0, 1) = Ok (r, tot) ->
  0 <= r <= 6 ->
  get_pmt_positions_top number =
  Ok (ring_point r (number + count_at ring_counts r - tot)).
Proof.
  intros Hloop Hr. unfold get_pmt_positions_top.
  rewrite top_array_value. cbn [bind].
  change (getitem ring_counts 0) with (Ok (A:=Z) 1). cbn [bind].
  rewrite Hloop. cbn [bind].
  rewrite ring_count_at, radius_at by assumption. reflexivity.
Qed.


Lemma ring_point_0 (within : Z) : ring_point 0 within = (0, 0)%R.
Proof. unfold ring_point. f_equal; lra. Qed.

Lemma get_pmt_positions_top_below (number : Z) :
  number <= 1 -> get_pmt_positions_top number = Ok (0, 0)%R.
Proof.
  intros H.
  rewrite (get_pmt_positions_top_of_loop number 0 1) by (try apply top_loop_below; lia).
  now rewrite ring_point_0.
Qed.

(** On its domain the function returns the point of the ring and place
    that the cumulative counts assign to the number. *)
Lemma top_locate (n : Z) :
  1 <= n <= 127 ->
  exists r within,
    0 <= r <= 6 /\
    smallest_reaching ring_counts n r /\
    n = cumulative ring_counts (r - 1) + within /\
    1 <= within <= count_at ring_counts r /\
    get_pmt_positions_top n = Ok (ring_point r within).
Proof.
  intros Hn. destruct (top_loop_valid n Hn) as (r & Hr & Hloop & Hcum).
  exists r, (n - cumulative ring_counts (r - 1)).
  pose proof (count_at_cumulative ring_counts r ltac:(lia)) as Hc.
  split; [lia|]. split.
  { apply smallest_reaching_intro; try assumption.
    - apply ring_counts_nonneg.
    - vm_compute len. lia. }
  split; [lia|]. split; [lia|].
  rewrite (get_pmt_positions_top_of_loop n r _ Hloop Hr). do 2 f_equal. lia.
Qed.

Lemma top_returns (n : Z) :
  1 <= n <= 127 ->
  get_pmt_positions_top n = Ok (returned (get_pmt_positions_top n)).
Proof.
  intros H. destruct (top_locate n H) as (r & w & _ & _ & _ & _ & ->).
  reflexivity.
Qed.

(** ** The bottom array *)

Lemma bottom_loop_unfold (number : Z) (extra : nat) :
  bottom_loop (length row_counts + extra) row_counts 127 number (0, 5) =
  bottom_cascade number.
Proof. reflexivity. Qed.

Lemma bottom_loop_cascade (number : Z) :
  bottom_loop (length row_counts) row_counts 127 number (0, 5) =
  bottom_cascade number.
Proof. exact (bottom_loop_unfold number 0). Qed.

Lemma bottom_loop_fuel (number : Z) (fuel : nat) :
  (length row_counts <= fuel)%nat ->
  bottom_loop fuel row_counts 127 number (0, 5) =
  bottom_loop (length row_counts) row_counts 127 number (0, 5).
Proof.
  intros H.
  replace fuel with (length row_counts + (fuel - length row_counts))%nat by lia.
  now rewrite bottom_loop_unfold, bottom_loop_cascade.
Qed.

Lemma bottom_loop_total (number : Z) :
  bottom_loop (length row_counts) row_counts 127 number (0, 5) <> OutOfFuel.
Proof.
  rewrite bottom_loop_cascade. unfold bottom_cascade. split_gtb; discriminate.
Qed.


Lemma bottom_loop_below (number : Z) :
  number <= 132 ->
  bottom_loop (length row_counts) row_counts 127 number (0, 5) = Ok (0, 5).
Proof.
  intros H. rewrite bottom_loop_cascade. unfold bottom_cascade.
  split_gtb; solve [reflexivity | lia].
Qed.

Lemma bottom_loop_valid (number : Z) :
  128 <= number <= 248 ->
  exists r, 0 <= r <= 12 /\
    bottom_loop (length row_counts) row_counts 127 number (0, 5) =
      Ok (r, cumulative row_counts r) /\
    127 + cumulative row_counts (r - 1) < number <= 127 + cumulative row_counts r.
Proof.
  intros H. rewrite bottom_loop_cascade. unfold bottom_cascade.
  split_gtb; try lia;
    [exists 12 | exists 11 | exists 10 | exists 9 | exists 8 | exists 7 | exists 6
     | exists 5 | exists 4 | exists 3 | exists 2 | exists 1 | exists 0];
    (split; [lia|]); (split; [reflexivity|]);
    vm_compute cumulative; lia.
Qed.

Lemma row_count_at (r : Z) :
  0 <= r <= 12 -> getitem row_counts r = Ok (count_at row_counts r).
Proof.
  intros H. rewrite (getitem_nth 0) by (vm_compute len; lia).
  unfold count_at. destruct (Z.ltb_spec r 0); [lia | reflexivity].
Qed.

(** The list [PMTsRowOffset] built by the [for] loop. *)
Lemma row_offsets_value :
  for_each (range 0 13)
    (fun PMTsRowOffset i =>
       a <- getitem row_counts i ;;
       Ok (PMTsRowOffset ++ [-0.5 * (IZR a - 1) * PMT_distance_bottom])%R) [] =
  Ok (map row_offset (range 0 13)).
Proof.
  rewrite (for_each_append_map _ row_offset); [reflexivity|].
  intros acc i Hi. apply in_range in Hi.
  rewrite row_count_at by lia. reflexivity.
Qed.

(** What the function returns once its loop has stopped in row [r]. *)
Lemma get_pmt_positions_bottom_of_loop (number r tot : Z) :
  bottom_loop (length row_counts) row_counts 127 number (0, 5) = Ok (r, tot) ->
  0 <= r <= 12 ->
  get_pmt_positions_bottom number =
  Ok (row_point r (number + count_at row_counts r - tot - (127 + 1))).
Proof.
  intros Hloop Hr. unfold get_pmt_positions_bottom. cbv zeta.
  fold row_counts. rewrite row_offsets_value. cbn [bind].
  change (getitem row_counts 0) with (Ok (A:=Z) 5). cbn [bind].
  rewrite Hloop. cbn [bind].
  rewrite row_count_at by assumption. cbn [bind].
  rewrite getitem_map, getitem_range by lia. reflexivity.
Qed.


Lemma get_pmt_positions_bottom_below (number : Z) :
  number <= 132 ->
  get_pmt_positions_bottom number = Ok (row_point 0 (number - 128)).
Proof.
  intros H.
  rewrite (get_pmt_positions_bottom_of_loop number 0 5)
    by (try apply bottom_loop_below; lia).
  do 2 f_equal. change (count_at row_counts 0) with 5. lia.
Qed.

(** On its domain the function returns the point of the row and place that
    the cumulative counts assign to the number; places count from 0. *)
Lemma bottom_locate (n : Z) :
  128 <= n <= 248 ->
  exists r k,
    0 <= r <= 12 /\
    smallest_reaching row_counts (n - 127) r /\
    in_row n r /\
    n = 128 + cumulative row_counts (r - 1) + k /\
    0 <= k < count_at row_counts r /\
    get_pmt_positions_bottom n = Ok (row_point r k).
Proof.
  intros Hn. destruct (bottom_loop_valid n Hn) as (r & Hr & Hloop & Hcum).
  exists r, (n - 128 - cumulative row_counts (r - 1)).
  pose proof (count_at_cumulative row_counts r ltac:(lia)) as Hc.
  split; [lia|]. split.
  { apply smallest_reaching_intro; try lia.
    - apply row_counts_nonneg.
    - vm_compute len. lia. }
  split; [eexists; exact Hloop|].
  split; [lia|]. split; [lia|].
  rewrite (get_pmt_positions_bottom_of_loop n r _ Hloop Hr). do 2 f_equal. lia.
Qed.

Lemma bottom_returns (n : Z) :
  128 <= n <= 248 ->
  get_pmt_positions_bottom n = Ok (returned (get_pmt_positions_bottom n)).
Proof.
  intros H. destruct (bottom_locate n H) as (r & w & _ & _ & _ & _ & _ & ->).
  reflexivity.
Qed.

(** ** The assembled list *)

Lemma positions_top_value :
  positions_top =
  Ok (map (fun pos => rotate pos rotation_angle_top)
        (map (fun n => returned (get_pmt_positions_top n)) (range 1 128))).
Proof.
  unfold positions_top.
  rewrite (comprehension_map _ (fun n => returned (get_pmt_positions_top n))).
  - reflexivity.
  - intros n Hn. apply in_range in Hn. apply top_returns. lia.
Qed.

Lemma positions_bottom_value :
  positions_bottom =
  Ok (map (fun pos => rotate pos rotation_angle_bottom)
        (map (fun n => returned (get_pmt_positions_bottom n)) (range 128 249))).
Proof.
  unfold positions_bottom. change (121 + 127 + 1) with 249.
  rewrite (comprehension_map _ (fun n => returned (get_pmt_positions_bottom n))).
  - reflexivity.
  - intros n Hn. apply in_range in Hn. apply bottom_returns. lia.
Qed.

Lemma pmt_locations_value :
  pmt_locations =
  Ok (map (fun i => as_location (top_channel i)) (range 0 127) ++
      map (fun i => as_location (bottom_channel i)) (range 0 121)).
Proof.
  unfold pmt_locations, xs_top, ys_top, xs_bottom, ys_bottom.
  rewrite positions_top_value, positions_bottom_value. cbn [bind].
  rewrite (for_each_append_map _ (fun i => as_location (top_channel i))).
  - cbn [bind app].
    apply (for_each_append_map _ (fun i => as_location (bottom_channel i))).
    intros acc i Hi. apply in_range in Hi.
    rewrite !getitem_map, !getitem_range by lia. reflexivity.
  - intros acc i Hi. apply in_range in Hi.
    rewrite !getitem_map, !getitem_range by lia. cbn [bind].
    unfold as_location, top_channel.
    replace (1 + (127 - 1 - i)) with (127 - i) by lia. reflexivity.
Qed.

Lemma pmt_locations_length :
  exists locs, pmt_locations = Ok locs /\ len locs = 248.
Proof.
  eexists. split; [apply pmt_locations_value|].
  unfold len. rewrite length_app, !length_map. reflexivity.
Qed.

Lemma pmt_position_top (i : Z) :
  0 <= i <= 126 -> pmt_position i = Ok (top_channel i).
Proof.
  intros H. unfold pmt_position. rewrite pmt_locations_value. cbn [bind].
  rewrite getitem_app_l by (rewrite len_map, len_range; lia).
  rewrite getitem_map, getitem_range by lia. reflexivity.
Qed.

Lemma pmt_position_bottom (i : Z) :
  0 <= i <= 120 -> pmt_position (127 + i) = Ok (bottom_channel i).
Proof.
  intros H. unfold pmt_position. rewrite pmt_locations_value. cbn [bind].
  replace 127 with (len (map (fun i => as_location (top_channel i)) (range 0 127)))
    by (rewrite len_map, len_range; lia).
  rewrite getitem_app_r by (rewrite len_map, len_range; lia).
  rewrite getitem_map, getitem_range by lia. reflexivity.
Qed.

Open Scope R_scope.

(** ** Plane geometry *)

Lemma trig_one (a : R) : sin a * sin a + cos a * cos a = 1.
Proof. pose proof (sin2_cos2 a) as H. unfold Rsqr in H. exact H. Qed.

Lemma rotate_origin (a : R) : rotate (0, 0) a = (0, 0).
Proof. unfold rotate. cbn [fst snd]. f_equal; ring. Qed.

Lemma dist2_sym (p q : position) : dist2 p q = dist2 q p.
Proof. unfold dist2. ring. Qed.

Lemma dist2_rotate (p q : position) (a : R) :
  dist2 (rotate p a) (rotate q a) = dist2 p q.
Proof.
  destruct p as [px py], q as [qx qy]. unfold dist2, rotate. cbn [fst snd].
  pose proof (trig_one a) as H.
  replace ((px * cos a - py * sin a - (qx * cos a - qy * sin a)) *
           (px * cos a - py * sin a - (qx * cos a - qy * sin a)) +
           (px * sin a + py * cos a - (qx * sin a + qy * cos a)) *
           (px * sin a + py * cos a - (qx * sin a + qy * cos a)))
    with (((px - qx) * (px - qx) + (py - qy) * (py - qy)) *
          (sin a * sin a + cos a * cos a)) by ring.
  rewrite H. ring.
Qed.

Lemma Rabs_le_between (x b : R) : Rabs x <= b -> - b <= x <= b.
Proof.
  intros H. pose proof (Rle_abs x). pose proof (Rle_abs (- x)) as Hn.
  rewrite Rabs_Ropp in Hn. lra.
Qed.



(** *** Sines away from the multiples of [PI] *)




(** Two points of one circle of radius [rad] at angles [2 * t] apart. *)
Lemma dist2_circle (rad a b : R) :
  dist2 (rad * cos a, rad * sin a) (rad * cos b, rad * sin b) =
  4 * rad * rad * (sin ((a - b) / 2) * sin ((a - b) / 2)).
Proof.
  unfold dist2. cbn [fst snd].
  pose proof (cos_2a_sin ((a - b) / 2)) as H.
  replace (2 * ((a - b) / 2)) with (a - b) in H by lra.
  rewrite cos_minus in H.
  pose proof (trig_one a). pose proof (trig_one b). nra.
Qed.

(** Two points of circles of different radii. *)
Lemma dist2_circles (r1 r2 a b : R) :
  (r1 - r2) * (r1 - r2) <=
  dist2 (r1 * cos a, r1 * sin a) (r2 * cos b, r2 * sin b) + 
  2 * r1 * r2 * (cos (a - b) - 1).
Proof.
  unfold dist2. cbn [fst snd]. rewrite cos_minus.
  pose proof (trig_one a). pose proof (trig_one b). nra.
Qed.

(** *** Separation inside the top array *)




(** *** Separation inside the bottom array *)

Lemma IZR_gap (a b : Z) : a <> b -> 1 <= (IZR a - IZR b) * (IZR a - IZR b).
Proof.
  intros Hne.
  destruct (Z.lt_trichotomy a b) as [Hlt | [Heq | Hgt]]; [|contradiction|].
  - assert (a + 1 <= b)%Z as Hle by lia. apply IZR_le in Hle.
    rewrite plus_IZR in Hle. nra.
  - assert (b + 1 <= a)%Z as Hle by lia. apply IZR_le in Hle.
    rewrite plus_IZR in Hle. nra.
Qed.


Open Scope Z_scope.

Lemma norm_ring_point (r within : Z) :
  0 <= r -> norm (ring_point r within) = (IZR r * PMT_distance_top)%R.
Proof.
  intros Hr. unfold norm, ring_point. cbn [fst snd].
  set (a := (IZR within * PI * 2 / IZR (count_at ring_counts r))%R).
  set (rad := (IZR r * PMT_distance_top)%R).
  assert (0 <= rad)%R.
  { unfold rad, PMT_distance_top. apply IZR_le in Hr. nra. }
  replace (rad * cos a * (rad * cos a) + rad * sin a * (rad * sin a))%R
    with (rad * rad * (sin a * sin a + cos a * cos a))%R by ring.
  rewrite trig_one, Rmult_1_r. now apply sqrt_square.
Qed.



Lemma in_row_functional (n r r' : Z) : in_row n r -> in_row n r' -> r = r'.
Proof. intros [t H] [t' H']. congruence. Qed.

(** ** The claims *)




(** C2: channel [i], for 0 <= i <= 126, is the top-array position of
    generation number [127 - i] rotated by the top angle, and channel
    [127 + i], for 0 <= i <= 120, is the bottom-array position of generation
    number [128 + i] rotated by the bottom angle. *)
Theorem assembly_mapping (i : Z) :
  0 <= i <= 126 ->
  (exists p,
     get_pmt_positions_top (127 - i) = Ok p /\
     pmt_position i = Ok (rotate p rotation_angle_top)) /\
  (i <= 120 ->
   exists q,
     get_pmt_positions_bottom (128 + i) = Ok q /\
     pmt_position (127 + i) = Ok (rotate q rotation_angle_bottom)).
Proof.
  intros Hi. split.
  - exists (returned (get_pmt_positions_top (127 - i))). split.
    + apply top_returns. lia.
    + now apply pmt_position_top.
  - intros Hb. exists (returned (get_pmt_positions_bottom (128 + i))). split.
    + apply bottom_returns. lia.
    + apply pmt_position_bottom. lia.
Qed.

(** The four instances the specification names: channels 0, 126, 127, 247. *)
Lemma assembly_mapping_witness :
  (exists p, get_pmt_positions_top 127 = Ok p /\
             pmt_position 0 = Ok (rotate p rotation_angle_top)) /\
  (exists p, get_pmt_positions_top 1 = Ok p /\
             pmt_position 126 = Ok (rotate p rotation_angle_top)) /\
  (exists q, get_pmt_positions_bottom 128 = Ok q /\
             pmt_position 127 = Ok (rotate q rotation_angle_bottom)) /\
  (exists q, get_pmt_positions_bottom 248 = Ok q /\
             pmt_position 247 = Ok (rotate q rotation_angle_bottom)).
Proof.
  split; [exact (proj1 (assembly_mapping 0 ltac:(lia)))|].
  split; [exact (proj1 (assembly_mapping 126 ltac:(lia)))|].
  split; [exact (proj2 (assembly_mapping 0 ltac:(lia)) ltac:(lia))|].
  exact (proj2 (assembly_mapping 120 ltac:(lia)) ltac:(lia)).
Defined.

Ltac ring_is n r :=
  apply (smallest_reaching_unique ring_counts n);
  [ assumption
  | apply smallest_reaching_intro;
    [ apply ring_counts_nonneg | vm_compute len; lia | vm_compute cumulative; lia ] ].

(** C3: for every [n] in [1, 127] the position returned by
    [get_pmt_positions_top] lies at distance [r * 7.95] from the origin,
    where [r] is the smallest ring index whose cumulative count over
    [1, 6, 12, 18, 24, 30, 36] reaches [n]; number 1 is at the origin,
    numbers 2 and 7 at radius 7.95 and number 8 at radius 15.9. *)
Theorem top_radius_rule (n : Z) :
  1 <= n <= 127 ->
  exists r p,
    smallest_reaching ring_counts n r /\
    get_pmt_positions_top n = Ok p /\
    norm p = (IZR r * 7.95)%R /\
    (n = 1 -> p = (0, 0)%R) /\
    (n = 2 \/ n = 7 -> norm p = 7.95%R) /\
    (n = 8 -> norm p = 15.9%R).
Proof.
  intros Hn.
  destruct (top_locate n Hn) as (r & w & Hr & Hsm & Hdec & Hw & Heq).
  exists r, (ring_point r w).
  split; [assumption|]. split; [assumption|].
  rewrite norm_ring_point by lia. unfold PMT_distance_top.
  split; [reflexivity|]. split; [|split].
  - intros ->. assert (r = 0) as -> by ring_is 1 0. apply ring_point_0.
  - intros [-> | ->].
    + assert (r = 1) as -> by ring_is 2 1. lra.
    + assert (r = 1) as -> by ring_is 7 1. lra.
  - intros ->. assert (r = 2) as -> by ring_is 8 2. lra.
Qed.

Lemma top_radius_rule_witness :
  exists r p,
    smallest_reaching ring_counts 8 r /\
    get_pmt_positions_top 8 = Ok p /\
    norm p = (IZR r * 7.95)%R /\
    (8 = 1 -> p = (0, 0)%R) /\
    (8 = 2 \/ 8 = 7 -> norm p = 7.95%R) /\
    (8 = 8 -> norm p = 15.9%R).
Proof. apply (top_radius_rule 8). lia. Defined.

(** C4, as stated, fails: generation number 128 is the first PMT of row 0,
    so its place counted from 1 is 1, yet the function puts it at
    [row_offset[0] + 0 * 8.0], not at [row_offset[0] + 1 * 8.0]. *)
Lemma bottom_place_counts_from_0 :
  in_row 128 0 /\
  within_from_1 128 0 = 1 /\
  get_pmt_positions_bottom 128 = Ok (row_point 0 0) /\
  get_pmt_positions_bottom 128 <> Ok (row_point 0 (within_from_1 128 0)).
Proof.
  assert (get_pmt_positions_bottom 128 = Ok (row_point 0 0)) as H
    by (now rewrite get_pmt_positions_bottom_below by lia).
  split; [exists 5; reflexivity|]. split; [reflexivity|]. split; [exact H|].
  rewrite H. change (within_from_1 128 0) with 1.
  unfold row_point, PMT_distance_bottom. intros [= Hx]. lra.
Qed.

(** C4, amended: for every [n] in [128, 248], with [r] the row found by the
    running-total scan against [n - 127] and [within] the place of [n] in row
    [r] counted from 0 (that is [n - 128] minus the PMTs of the rows before
    [r]), the function returns
    [(row_offset[r] + within * 8.0, (0.5*(13-1) - r) * (sqrt(3)/2) * 8.0)]
    with [row_offset[r] = -0.5 * (row_count[r] - 1) * 8.0]. *)
Theorem bottom_position_formula (n : Z) :
  128 <= n <= 248 ->
  exists r,
    smallest_reaching row_counts (n - 127) r /\
    in_row n r /\
    0 <= within_from_0 n r < count_at row_counts r /\
    get_pmt_positions_bottom n =
    Ok ((-0.5 * (IZR (count_at row_counts r) - 1) * 8.0
         + IZR (within_from_0 n r) * 8.0,
         (0.5 * (13 - 1) - IZR r) * (sqrt 3 / 2 * 8.0))%R).
Proof.
  intros Hn.
  destruct (bottom_locate n Hn) as (r & k & Hr & Hsm & Hrow & Hdec & Hk & Heq).
  exists r. unfold within_from_0.
  replace (n - 128 - cumulative row_counts (r - 1)) with k by lia.
  split; [assumption|]. split; [assumption|]. split; [assumption|].
  exact Heq.
Qed.

Lemma bottom_position_formula_witness :
  exists r,
    smallest_reaching row_counts (188 - 127) r /\
    in_row 188 r /\
    0 <= within_from_0 188 r < count_at row_counts r /\
    get_pmt_positions_bottom 188 =
    Ok ((-0.5 * (IZR (count_at row_counts r) - 1) * 8.0
         + IZR (within_from_0 188 r) * 8.0,
         (0.5 * (13 - 1) - IZR r) * (sqrt 3 / 2 * 8.0))%R).
Proof. apply (bottom_position_formula 188). lia. Defined.




(** C6: for [n] in [1, 127] the scan of [get_pmt_positions_top] stops, on
    [len(array)] units of fuel and on any larger amount, in a ring index at
    most 6, and the call returns a pair of reals; for [m] in [128, 248] the
    scan of [get_pmt_positions_bottom] stops in a row index at most 12 and
    the call returns a pair of reals. *)
Theorem loops_terminate (n m : Z) :
  1 <= n <= 127 -> 128 <= m <= 248 ->
  (exists r iTotal x y,
     0 <= r <= 6 /\
     (forall fuel, (length ring_counts <= fuel)%nat ->
        top_loop fuel ring_counts n (0, 1) = Ok (r, iTotal)) /\
     get_pmt_positions_top n = Ok (x, y)) /\
  (exists r iTotal x y,
     0 <= r <= 12 /\
     (forall fuel, (length row_counts <= fuel)%nat ->
        bottom_loop fuel row_counts 127 m (0, 5) = Ok (r, iTotal)) /\
     get_pmt_positions_bottom m = Ok (x, y)).
Proof.
  intros Hn Hm. split.
  - destruct (top_loop_valid n Hn) as (r & Hr & Hloop & _).
    pose proof (top_returns n Hn) as Hret.
    destruct (returned (get_pmt_positions_top n)) as [x y].
    exists r, (cumulative ring_counts r), x, y.
    split; [assumption|]. split; [|assumption].
    intros fuel Hfuel. now rewrite top_loop_fuel.
  - destruct (bottom_loop_valid m Hm) as (r & Hr & Hloop & _).
    pose proof (bottom_returns m Hm) as Hret.
    destruct (returned (get_pmt_positions_bottom m)) as [x y].
    exists r, (cumulative row_counts r), x, y.
    split; [assumption|]. split; [|assumption].
    intros fuel Hfuel. now rewrite bottom_loop_fuel.
Qed.

Lemma loops_terminate_witness :
  (exists r iTotal x y,
     0 <= r <= 6 /\
     (forall fuel, (length ring_counts <= fuel)%nat ->
        top_loop fuel ring_counts 127 (0, 1) = Ok (r, iTotal)) /\
     get_pmt_positions_top 127 = Ok (x, y)) /\
  (exists r iTotal x y,
     0 <= r <= 12 /\
     (forall fuel, (length row_counts <= fuel)%nat ->
        bottom_loop fuel row_counts 127 248 (0, 5) = Ok (r, iTotal)) /\
     get_pmt_positions_bottom 248 = Ok (x, y)).
Proof. apply (loops_terminate 127 248); lia. Defined.

Open Scope R_scope.

(** C7: rotating a position by [theta] and then by [- theta] gives the
    position back, exactly, over the reals. *)
Theorem rotate_round_trip (pos : position) (theta : R) :
  rotate (rotate pos theta) (- theta) = pos.
Proof.
  destruct pos as [x y]. unfold rotate. cbn [fst snd].
  rewrite cos_neg, sin_neg. pose proof (trig_one theta) as H.
  f_equal.
  - replace ((x * cos theta - y * sin theta) * cos theta -
             (x * sin theta + y * cos theta) * - sin theta)
      with (x * (sin theta * sin theta + cos theta * cos theta)) by ring.
    rewrite H. ring.
  - replace ((x * cos theta - y * sin theta) * - sin theta +
             (x * sin theta + y * cos theta) * cos theta)
      with (y * (sin theta * sin theta + cos theta * cos theta)) by ring.
    rewrite H. ring.
Qed.

(** C9: [rotate] preserves the squared Euclidean norm, hence the distance
    of a PMT from the detector axis. *)
Theorem rotate_preserves_norm (pos : position) (theta : R) :
  fst (rotate pos theta) * fst (rotate pos theta) +
  snd (rotate pos theta) * snd (rotate pos theta) =
  fst pos * fst pos + snd pos * snd pos /\
  norm (rotate pos theta) = norm pos.
Proof.
  assert (fst (rotate pos theta) * fst (rotate pos theta) +
          snd (rotate pos theta) * snd (rotate pos theta) =
          fst pos * fst pos + snd pos * snd pos) as H.
  { destruct pos as [x y]. unfold rotate. cbn [fst snd].
    pose proof (trig_one theta) as Ht.
    replace ((x * cos theta - y * sin theta) * (x * cos theta - y * sin theta) +
             (x * sin theta + y * cos theta) * (x * sin theta + y * cos theta))
      with ((x * x + y * y) * (sin theta * sin theta + cos theta * cos theta))
      by ring.
    rewrite Ht. ring. }
  split; [exact H|]. unfold norm. now rewrite H.
Qed.

Open Scope Z_scope.

(** C8: row [r] of the bottom array is centred on x = 0.  Its generation
    numbers are [128 + (PMTs of the rows before r) + k] for
    [k = 0 .. row_count[r] - 1]; number [k] of them has
    [x = -0.5*(row_count[r]-1)*8.0 + k*8.0], so the row runs from
    [-0.5*(row_count[r]-1)*8.0] to [+0.5*(row_count[r]-1)*8.0] in steps of
    8.0, and the PMT at place [row_count[r] - 1 - k] has the opposite x and
    the same y. *)
Theorem row_centering (r k : Z) :
  0 <= r <= 12 -> 0 <= k < count_at row_counts r ->
  let c := count_at row_counts r in
  let n := 128 + cumulative row_counts (r - 1) + k in
  let n' := 128 + cumulative row_counts (r - 1) + (c - 1 - k) in
  (128 <= n <= 248 /\ in_row n r /\ in_row n' r) /\
  (exists y,
     get_pmt_positions_bottom n =
       Ok ((-0.5 * (IZR c - 1) * 8.0 + IZR k * 8.0)%R, y) /\
     get_pmt_positions_bottom n' =
       Ok ((- (-0.5 * (IZR c - 1) * 8.0 + IZR k * 8.0))%R, y)) /\
  (forall m, 128 <= m <= 248 -> in_row m r ->
     exists j, 0 <= j < c /\ m = 128 + cumulative row_counts (r - 1) + j).
Proof.
  intros Hr Hk. cbv zeta.
  set (c := count_at row_counts r) in *.
  set (base := cumulative row_counts (r - 1)).
  pose proof row_counts_nonneg as Hnn.
  pose proof (count_at_cumulative row_counts r ltac:(lia)) as Hsum.
  pose proof (cumulative_mono row_counts r 12 Hnn ltac:(lia)) as Htop.
  pose proof (cumulative_mono row_counts (-1) (r - 1) Hnn ltac:(lia)) as Hbot.
  change (cumulative row_counts 12) with 121 in Htop.
  change (cumulative row_counts (-1)) with 0 in Hbot.
  fold c base in Hsum. fold base in Hbot.
  assert (forall j, 0 <= j < c ->
            in_row (128 + base + j) r /\
            get_pmt_positions_bottom (128 + base + j) = Ok (row_point r j))
    as Hplace.
  { intros j Hj.
    destruct (bottom_locate (128 + base + j))
      as (r' & j' & Hr' & _ & Hrow & Hdec & Hj' & Heq); [lia|].
    assert (r = r' /\ j = j') as [<- <-].
    { apply (decomposition_unique row_counts); try assumption; lia. }
    now split. }
  destruct (Hplace k ltac:(assumption)) as [Hrow Heq].
  destruct (Hplace (c - 1 - k) ltac:(lia)) as [Hrow' Heq'].
  split; [|split].
  - split; [lia|]. now split.
  - exists (snd (row_point r k)). rewrite Heq, Heq'.
    unfold row_point, row_offset, PMT_distance_bottom. cbn [snd]. fold c.
    split; [reflexivity|]. f_equal. f_equal.
    rewrite !minus_IZR. lra.
  - intros m Hm Hin.
    destruct (bottom_locate m Hm) as (r' & j & _ & _ & Hrow'' & Hdec & Hj & _).
    assert (r' = r) as -> by exact (in_row_functional m _ _ Hrow'' Hin).
    exists j. split; assumption.
Qed.

Lemma row_centering_witness :
  (128 <= 128 + cumulative row_counts (6 - 1) + 2 <= 248 /\
   in_row (128 + cumulative row_counts (6 - 1) + 2) 6 /\
   in_row (128 + cumulative row_counts (6 - 1) + (count_at row_counts 6 - 1 - 2)) 6) /\
  (exists y,
     get_pmt_positions_bottom (128 + cumulative row_counts (6 - 1) + 2) =
       Ok ((-0.5 * (IZR (count_at row_counts 6) - 1) * 8.0 + IZR 2 * 8.0)%R, y) /\
     get_pmt_positions_bottom
       (128 + cumulative row_counts (6 - 1) + (count_at row_counts 6 - 1 - 2)) =
       Ok ((- (-0.5 * (IZR (count_at row_counts 6) - 1) * 8.0 + IZR 2 * 8.0))%R, y)) /\
  (forall m, 128 <= m <= 248 -> in_row m 6 ->
     exists j, 0 <= j < count_at row_counts 6 /\
               m = 128 + cumulative row_counts (6 - 1) + j).
Proof. apply (row_centering 6 2); vm_compute; split; congruence. Defined.

(** C10: the out-of-range number 0 is accepted by the top locator: the guard
    [0 > 1] fails at once, so one evaluation of the guard ends the loop in
    ring 0, and the call returns (0, 0), the position of number 1. *)
Theorem top_accepts_zero :
  (0 >? 1) = false /\
  top_loop 1 ring_counts 0 (0, 1) = Ok (0, 1) /\
  get_pmt_positions_top 0 = Ok (0, 0)%R /\
  get_pmt_positions_top 0 = get_pmt_positions_top 1.
Proof.
  split; [reflexivity|]. split; [reflexivity|].
  rewrite !get_pmt_positions_top_below by lia. now split.
Qed.

(** * Further properties of the notebook *)

(** ** The scan over an arbitrary table of counts *)

Lemma getitem_past_end {A : Type} (l : list A) (i : Z) :
  len l <= i -> getitem l i = Raise IndexError.
Proof.
  intros Hi. unfold getitem, norm_index.
  assert (0 <= len l) by (unfold len; lia).
  destruct (Z.ltb_spec i 0); [lia|].
  destruct (Z.ltb_spec i (len l)); [lia|].
  now rewrite andb_false_r.
Qed.

Lemma getitem_count_at (array : list Z) (i : Z) :
  0 <= i < len array -> getitem array i = Ok (count_at array i).
Proof.
  intros H. rewrite (getitem_nth 0) by assumption.
  unfold count_at. destruct (Z.ltb_spec i 0); [lia | reflexivity].
Qed.

Section Scan.
Variable array : list Z.
Variable target : Z.
Variable cond : Z * Z -> bool.
Hypothesis cond_spec : forall i tot, cond (i, tot) = true <-> tot < target.

Lemma scan_from_index (fuel : nat) :
  forall i,
    0 <= i < len array ->
    (Z.to_nat (len array - i) <= fuel)%nat ->
    (forall j, 0 <= j < i -> cumulative array j < target) ->
    scan_outcome array target
      (while fuel cond
         (fun '(index1, iTotal) =>
            let index1 := index1 + 1 in
            a <- getitem array index1 ;;
            Ok (index1, iTotal + a))
         (i, cumulative array i)).
Proof.
  induction fuel as [|fuel IH]; intros i Hi Hfuel Hlow; [lia|].
  cbn [while]. destruct (cond (i, cumulative array i)) eqn:Hc.
  - apply (proj1 (cond_spec i _)) in Hc.
    assert (forall j, 0 <= j < i + 1 -> cumulative array j < target) as Hlow'.
    { intros j Hj. destruct (Z.eq_dec j i) as [-> | Hne]; [assumption|].
      apply Hlow. lia. }
    destruct (Z.eq_dec (i + 1) (len array)) as [Hend | Hmore].
    + cbv zeta. rewrite getitem_past_end by lia. cbn.
      intros j Hj. apply Hlow'. lia.
    + cbv zeta. rewrite getitem_count_at by lia. cbn [bind].
      pose proof (count_at_cumulative array (i + 1) ltac:(lia)) as Hsum.
      replace (i + 1 - 1) with i in Hsum by lia. rewrite <- Hsum.
      apply IH; [lia | lia | assumption].
  - cbn. split; [|reflexivity]. split; [assumption|]. split; [|assumption].
    destruct (Z.lt_ge_cases (cumulative array i) target) as [Hlt | Hge]; [|lia].
    apply (proj2 (cond_spec i _)) in Hlt. congruence.
Qed.

Lemma scan_from (fuel : nat) (i tot : Z) :
  0 <= i < len array ->
  (Z.to_nat (len array - i) <= fuel)%nat ->
  (forall j, 0 <= j < i -> cumulative array j < target) ->
  tot = cumulative array i ->
  scan_outcome array target
    (while fuel cond
       (fun '(index1, iTotal) =>
          let index1 := index1 + 1 in
          a <- getitem array index1 ;;
          Ok (index1, iTotal + a))
       (i, tot)).
Proof. intros Hi Hfuel Hlow ->. now apply scan_from_index. Qed.
End Scan.

(** X1: whatever the table of counts (not empty) and whatever the number,
    the scan of [get_pmt_positions_top] ends within [len(array)] evaluations
    of its guard: it stops at the smallest index whose running total reaches
    [number], holding that total, or it raises [IndexError] when no running
    total of the table reaches [number]. *)
Theorem top_scan_any_table (a0 : Z) (rest : list Z) (number : Z) :
  scan_outcome (a0 :: rest) number
    (top_loop (length (a0 :: rest)) (a0 :: rest) number (0, a0)).
Proof.
  unfold top_loop.
  apply scan_from.
  - intros i tot. destruct (Z.gtb_spec number tot); split; intros; try lia; congruence.
  - unfold len. cbn [length]. lia.
  - unfold len. lia.
  - intros j Hj. lia.
  - unfold cumulative. simpl. lia.
Qed.

(** X2: the same for the scan of [get_pmt_positions_bottom], which compares
    the running totals with [number - n_pmts_top]. *)
Theorem bottom_scan_any_table (a0 : Z) (rest : list Z) (n_pmts_top number : Z) :
  scan_outcome (a0 :: rest) (number - n_pmts_top)
    (bottom_loop (length (a0 :: rest)) (a0 :: rest) n_pmts_top number (0, a0)).
Proof.
  unfold bottom_loop.
  apply scan_from.
  - intros i tot. destruct (Z.gtb_spec number (n_pmts_top + tot)); split; intros; try lia; congruence.
  - unfold len. cbn [length]. lia.
  - unfold len. lia.
  - intros j Hj. lia.
  - unfold cumulative. simpl. lia.
Qed.

Open Scope R_scope.

(** ** More on [rotate] *)

(** X3: two rotations in a row are the rotation by the sum of the angles. *)
Theorem rotate_compose (pos : position) (a b : R) :
  rotate (rotate pos a) b = rotate pos (a + b).
Proof.
  destruct pos as [x y]. unfold rotate. cbn [fst snd].
  rewrite cos_plus, sin_plus. f_equal; ring.
Qed.



Lemma rotate_opp (x y angle : R) :
  rotate (- x, - y) angle =
  (- fst (rotate (x, y) angle), - snd (rotate (x, y) angle)).
Proof. unfold rotate. cbn [fst snd]. f_equal; ring. Qed.

Open Scope Z_scope.

(** ** More on the top array *)

(** X5: for every [n] in [1, 127], with [r] the ring of [n] and
    [within = n - (PMTs of the rings before r)] its place counted from 1,
    [get_pmt_positions_top] returns
    [(r*7.95*cos(within*2*pi/count[r]), r*7.95*sin(within*2*pi/count[r]))]. *)
Theorem top_position_formula (n : Z) :
  1 <= n <= 127 ->
  exists r,
    smallest_reaching ring_counts n r /\
    1 <= n - cumulative ring_counts (r - 1) <= count_at ring_counts r /\
    get_pmt_positions_top n =
    Ok ((IZR r * 7.95 *
           cos (IZR (n - cumulative ring_counts (r - 1)) * PI * 2
                / IZR (count_at ring_counts r)),
         IZR r * 7.95 *
           sin (IZR (n - cumulative ring_counts (r - 1)) * PI * 2
                / IZR (count_at ring_counts r)))%R).
Proof.
  intros Hn.
  destruct (top_locate n Hn) as (r & w & Hr & Hsm & Hdec & Hw & Heq).
  exists r. replace (n - cumulative ring_counts (r - 1)) with w by lia.
  split; [assumption|]. split; [assumption|]. exact Heq.
Qed.

Lemma top_position_formula_witness :
  exists r,
    smallest_reaching ring_counts 100 r /\
    1 <= 100 - cumulative ring_counts (r - 1) <= count_at ring_counts r /\
    get_pmt_positions_top 100 =
    Ok ((IZR r * 7.95 *
           cos (IZR (100 - cumulative ring_counts (r - 1)) * PI * 2
                / IZR (count_at ring_counts r)),
         IZR r * 7.95 *
           sin (IZR (100 - cumulative ring_counts (r - 1)) * PI * 2
                / IZR (count_at ring_counts r)))%R).
Proof. apply (top_position_formula 100). lia. Defined.






(** ** More on the bottom array *)

Lemma bottom_at_place (r k : Z) :
  0 <= r <= 12 -> 0 <= k < count_at row_counts r ->
  128 <= 128 + cumulative row_counts (r - 1) + k <= 248 /\
  get_pmt_positions_bottom (128 + cumulative row_counts (r - 1) + k) =
  Ok (row_point r k).
Proof.
  intros Hr Hk.
  pose proof row_counts_nonneg as Hnn.
  pose proof (count_at_cumulative row_counts r ltac:(lia)) as Hsum.
  pose proof (cumulative_mono row_counts r 12 Hnn ltac:(lia)) as Htop.
  pose proof (cumulative_mono row_counts (-1) (r - 1) Hnn ltac:(lia)) as Hbot.
  change (cumulative row_counts 12) with 121 in Htop.
  change (cumulative row_counts (-1)) with 0 in Hbot.
  assert (128 <= 128 + cumulative row_counts (r - 1) + k <= 248) as Hn by lia.
  split; [assumption|].
  destruct (bottom_locate _ Hn) as (r' & k' & Hr' & _ & _ & Hdec & Hk' & Heq).
  assert (r = r' /\ k = k') as [<- <-].
  { apply (decomposition_unique row_counts); try assumption; lia. }
  exact Heq.
Qed.

(** The table of row counts reads the same in both directions. *)
Lemma row_counts_mirror (r : Z) :
  0 <= r <= 12 ->
  count_at row_counts (12 - r) = count_at row_counts r /\
  cumulative row_counts (12 - r - 1) = 121 - cumulative row_counts r.
Proof.
  intros H.
  assert (r = 0 \/ r = 1 \/ r = 2 \/ r = 3 \/ r = 4 \/ r = 5 \/ r = 6 \/
          r = 7 \/ r = 8 \/ r = 9 \/ r = 10 \/ r = 11 \/ r = 12) as Hr by lia.
  repeat destruct Hr as [-> | Hr]; try subst r; split; reflexivity.
Qed.

Lemma row_point_mirror (r k : Z) :
  0 <= r <= 12 ->
  row_point (12 - r) (count_at row_counts r - 1 - k) =
  ((- fst (row_point r k))%R, (- snd (row_point r k))%R).
Proof.
  intros Hr. destruct (row_counts_mirror r Hr) as [Hc _].
  unfold row_point, row_offset, PMT_distance_bottom. cbn [fst snd].
  rewrite Hc, !minus_IZR. f_equal; lra.
Qed.

Lemma bottom_mirror_numbers (n : Z) :
  128 <= n <= 248 ->
  exists x y,
    get_pmt_positions_bottom n = Ok (x, y) /\
    get_pmt_positions_bottom (376 - n) = Ok ((- x)%R, (- y)%R).
Proof.
  intros Hn.
  destruct (bottom_locate n Hn) as (r & k & Hr & _ & _ & Hdec & Hk & Heq).
  exists (fst (row_point r k)), (snd (row_point r k)).
  split; [rewrite Heq; now destruct (row_point r k)|].
  destruct (row_counts_mirror r Hr) as [Hc Hcum].
  pose proof (count_at_cumulative row_counts r ltac:(lia)) as Hsum.
  destruct (bottom_at_place (12 - r) (count_at row_counts r - 1 - k))
    as [_ Hplace]; [lia | rewrite Hc; lia |].
  rewrite Hcum in Hplace.
  replace (128 + (121 - cumulative row_counts r) + (count_at row_counts r - 1 - k))
    with (376 - n) in Hplace by lia.
  rewrite Hplace. f_equal. now apply row_point_mirror.
Qed.

(** X10: the bottom array is symmetric about the origin: the numbers [n]
    and [376 - n], counted from the two ends of the range 128..248, are at
    opposite points. *)
Theorem bottom_central_symmetry (n : Z) :
  128 <= n <= 248 ->
  exists x y,
    get_pmt_positions_bottom n = Ok (x, y) /\
    get_pmt_positions_bottom (376 - n) = Ok ((- x)%R, (- y)%R).
Proof. exact (bottom_mirror_numbers n). Qed.

Lemma bottom_central_symmetry_witness :
  exists x y,
    get_pmt_positions_bottom 128 = Ok (x, y) /\
    get_pmt_positions_bottom (376 - 128) = Ok ((- x)%R, (- y)%R).
Proof. apply (bottom_central_symmetry 128). lia. Defined.

(** X9: the bottom array is numbered in reading order: a larger number is
    in a lower row (smaller y), or in the same row further to the right. *)
Theorem bottom_reading_order (n n' : Z) :
  128 <= n -> n < n' -> n' <= 248 ->
  exists x y x' y',
    get_pmt_positions_bottom n = Ok (x, y) /\
    get_pmt_positions_bottom n' = Ok (x', y') /\
    ((y' < y)%R \/ (y' = y /\ (x < x')%R)).
Proof.
  intros H1 Hlt H2.
  destruct (bottom_locate n ltac:(lia)) as (r & k & Hr & Hsm & _ & Hdec & Hk & Heq).
  destruct (bottom_locate n' ltac:(lia)) as (r' & k' & Hr' & Hsm' & _ & Hdec' & Hk' & Heq').
  exists (fst (row_point r k)), (snd (row_point r k)),
         (fst (row_point r' k')), (snd (row_point r' k')).
  split; [rewrite Heq; now destruct (row_point r k)|].
  split; [rewrite Heq'; now destruct (row_point r' k')|].
  assert (r <= r') as Hrr.
  { destruct Hsm as (_ & Hn & Hmin). destruct Hsm' as (_ & Hn' & Hmin').
    destruct (Z.le_gt_cases r r') as [|Hgt]; [assumption|].
    specialize (Hmin r'). lia. }
  unfold row_point, row_offset, PMT_distance_bottom. cbn [fst snd].
  assert (0 < sqrt 3)%R as Hs by (apply sqrt_lt_R0; lra).
  destruct (Z.eq_dec r r') as [<- | Hne].
  - right. split; [reflexivity|].
    assert (k < k') as Hkk by lia. apply IZR_lt in Hkk. lra.
  - left. assert (r < r') as Hr2 by lia. apply IZR_lt in Hr2. nra.
Qed.

Lemma bottom_reading_order_witness :
  exists x y x' y',
    get_pmt_positions_bottom 132 = Ok (x, y) /\
    get_pmt_positions_bottom 133 = Ok (x', y') /\
    ((y' < y)%R \/ (y' = y /\ (x < x')%R)).
Proof. apply (bottom_reading_order 132 133); lia. Defined.

Open Scope R_scope.

(** ** Spacing *)

Lemma sin_multiple_le (n : nat) (x : R) :
  0 <= x -> INR n * x <= PI -> sin (INR n * x) <= INR n * sin x.
Proof.
  intros Hx. induction n as [|n IH]; intros Hn.
  - simpl. rewrite Rmult_0_l, sin_0. lra.
  - rewrite S_INR in *.
    assert (0 <= INR n) by apply pos_INR.
    assert (INR n * x <= PI) as Hn' by nra.
    assert (x <= PI) as Hx' by nra.
    specialize (IH Hn').
    replace ((INR n + 1) * x) with (INR n * x + x) by ring.
    rewrite sin_plus.
    pose proof (sin_ge_0 x Hx Hx').
    pose proof (sin_ge_0 (INR n * x) ltac:(nra) Hn').
    pose proof (COS_bound x). pose proof (COS_bound (INR n * x)).
    nra.
Qed.

Lemma sin_between (lo t : R) :
  0 <= lo <= PI / 2 -> lo <= t <= PI - lo -> sin lo <= sin t.
Proof.
  intros Hlo Ht.
  destruct (Rle_or_gt t (PI / 2)) as [Hle | Hgt].
  - apply sin_incr_1; lra.
  - rewrite <- (sin_PI_x t). apply sin_incr_1; lra.
Qed.

(** The chord between two PMTs of ring [r] spans at least one sixth of the
    [r]-th part of a half turn. *)
Lemma sin_ring_step (r : Z) :
  (1 <= r)%Z -> 1 / 2 <= IZR r * sin (PI / IZR (6 * r)).
Proof.
  intros Hr. pose proof PI_RGT_0 as Hpi.
  assert (1 <= IZR r) as Hr1 by (apply IZR_le; lia).
  assert (IZR (6 * r) = 6 * IZR r) as H6 by (rewrite mult_IZR; lra).
  rewrite H6.
  assert (0 < PI / (6 * IZR r)) as Hpos.
  { apply Rdiv_lt_0_compat; lra. }
  assert (IZR r * (PI / (6 * IZR r)) = PI / 6) as Hfull by (field; lra).
  pose proof (sin_multiple_le (Z.to_nat r) (PI / (6 * IZR r))) as H.
  rewrite INR_IZR_INZ, Z2Nat.id in H by lia.
  rewrite Hfull, sin_PI6 in H. apply H; lra.
Qed.

Lemma ring_points_spacing_lt (r k1 k2 : Z) :
  (1 <= r <= 6)%Z -> (1 <= k2)%Z -> (k2 < k1)%Z -> (k1 <= 6 * r)%Z ->
  PMT_distance_top * PMT_distance_top <=
  dist2 (ring_point r k1) (ring_point r k2).
Proof.
  intros Hr Hk2 Hlt Hk1. unfold ring_point.
  rewrite ring_count_6r by assumption. rewrite dist2_circle.
  set (t := (IZR k1 * PI * 2 / IZR (6 * r) - IZR k2 * PI * 2 / IZR (6 * r)) / 2).
  pose proof PI_RGT_0 as Hpi.
  assert (1 <= IZR r) as Hr1 by (apply IZR_le; lia).
  assert (IZR (6 * r) = 6 * IZR r) as H6 by (rewrite mult_IZR; lra).
  set (step := PI / IZR (6 * r)).
  assert (0 < step) as Hstep.
  { unfold step. rewrite H6. apply Rdiv_lt_0_compat; lra. }
  assert (IZR (6 * r) * step = PI) as Hfull by (unfold step; field; lra).
  assert (step <= PI / 2 /\ step <= t <= PI - step) as [Hhalf Ht].
  { assert (1 <= IZR k1 - IZR k2) as Hlo.
    { assert (k2 + 1 <= k1)%Z as H by lia. apply IZR_le in H.
      rewrite plus_IZR in H. lra. }
    assert (IZR k1 - IZR k2 <= IZR (6 * r) - 1) as Hhi.
    { assert (k1 - k2 <= 6 * r - 1)%Z as H by lia. apply IZR_le in H.
      rewrite !minus_IZR in H. lra. }
    assert (t = (IZR k1 - IZR k2) * step) as -> by (unfold t, step; field; lra).
    split; [|split]; nra. }
  pose proof (sin_between step t ltac:(lra) Ht) as Hs.
  pose proof (sin_ring_step r ltac:(lia)) as Hchord. fold step in Hchord.
  assert (0 <= sin step) by (apply sin_ge_0; lra).
  assert (1 / 2 <= IZR r * sin t) as Hrs by nra.
  unfold PMT_distance_top.
  replace (4 * (IZR r * 7.95) * (IZR r * 7.95) * (sin t * sin t))
    with (4 * 7.95 * 7.95 * ((IZR r * sin t) * (IZR r * sin t))) by lra.
  nra.
Qed.

Lemma ring_points_spacing (r1 k1 r2 k2 : Z) :
  (0 <= r1 <= 6)%Z -> (0 <= r2 <= 6)%Z ->
  (1 <= k1 <= count_at ring_counts r1)%Z ->
  (1 <= k2 <= count_at ring_counts r2)%Z ->
  (r1, k1) <> (r2, k2) ->
  PMT_distance_top * PMT_distance_top <=
  dist2 (ring_point r1 k1) (ring_point r2 k2).
Proof.
  intros Hr1 Hr2 Hk1 Hk2 Hne.
  destruct (Z.eq_dec r1 r2) as [-> | Hr].
  - assert (k1 <> k2) as Hk by congruence.
    assert (r2 <> 0%Z) as Hr0.
    { intros ->. change (count_at ring_counts 0) with 1%Z in *. lia. }
    rewrite ring_count_6r in Hk1, Hk2 by lia.
    destruct (Z.lt_trichotomy k1 k2) as [Hlt | [Heq | Hgt]]; [|contradiction|].
    + rewrite dist2_sym. apply ring_points_spacing_lt; lia.
    + apply ring_points_spacing_lt; lia.
  - unfold ring_point.
    set (a := IZR k1 * PI * 2 / IZR (count_at ring_counts r1)).
    set (b := IZR k2 * PI * 2 / IZR (count_at ring_counts r2)).
    pose proof (dist2_circles (IZR r1 * PMT_distance_top)
                  (IZR r2 * PMT_distance_top) a b) as Hd.
    pose proof (COS_bound (a - b)) as Hc.
    pose proof (IZR_gap r1 r2 Hr) as Hgap.
    assert (0 <= IZR r1) by (apply IZR_le; lia).
    assert (0 <= IZR r2) by (apply IZR_le; lia).
    unfold PMT_distance_top in *.
    assert (0 <= 2 * (IZR r1 * 7.95) * (IZR r2 * 7.95) * (1 - cos (a - b))) by
      (apply Rmult_le_pos; [nra | lra]).
    nra.
Qed.

Lemma top_numbers_spaced (n n' : Z) :
  (1 <= n <= 127)%Z -> (1 <= n' <= 127)%Z -> n <> n' ->
  exists p p',
    get_pmt_positions_top n = Ok p /\
    get_pmt_positions_top n' = Ok p' /\
    PMT_distance_top <= sqrt (dist2 p p').
Proof.
  intros Hn Hn' Hne.
  destruct (top_locate n Hn) as (r & w & Hr & _ & Hdec & Hw & Heq).
  destruct (top_locate n' Hn') as (r' & w' & Hr' & _ & Hdec' & Hw' & Heq').
  exists (ring_point r w), (ring_point r' w').
  split; [assumption|]. split; [assumption|].
  rewrite <- (sqrt_square PMT_distance_top) at 1 by (unfold PMT_distance_top; lra).
  apply sqrt_le_1_alt. apply ring_points_spacing; try assumption.
  intros [= -> ->]. lia.
Qed.



Lemma row_counts_step_odd (r : Z) :
  (0 <= r <= 11)%Z ->
  exists m, (count_at row_counts (r + 1) - count_at row_counts r = 2 * m + 1)%Z.
Proof.
  intros H.
  assert (r = 0 \/ r = 1 \/ r = 2 \/ r = 3 \/ r = 4 \/ r = 5 \/ r = 6 \/
          r = 7 \/ r = 8 \/ r = 9 \/ r = 10 \/ r = 11)%Z as Hr by lia.
  repeat destruct Hr as [-> | Hr]; try subst r;
    [exists 1%Z | exists 0%Z | exists 0%Z | exists 0%Z | exists 0%Z | exists (-1)%Z
     | exists 0%Z | exists (-1)%Z | exists (-1)%Z | exists (-1)%Z | exists (-1)%Z
     | exists (-2)%Z]; reflexivity.
Qed.

Lemma row_points_spacing_next (r k1 k2 : Z) :
  (0 <= r <= 11)%Z ->
  PMT_distance_bottom * PMT_distance_bottom <=
  dist2 (row_point r k1) (row_point (r + 1) k2).
Proof.
  intros Hr. destruct (row_counts_step_odd r Hr) as [m Hm].
  unfold dist2, row_point, row_offset, PMT_distance_bottom. cbn [fst snd].
  pose proof (sqrt_sqrt 3 ltac:(lra)) as H3.
  assert (IZR (count_at row_counts (r + 1)) =
          IZR (count_at row_counts r) + 2 * IZR m + 1) as Hc.
  { replace (count_at row_counts (r + 1))
      with (count_at row_counts r + (2 * m + 1))%Z by lia.
    rewrite !plus_IZR, mult_IZR. lra. }
  rewrite Hc, plus_IZR.
  pose proof (IZR_gap (2 * (k1 - k2) + 2 * m + 1) 0 ltac:(lia)) as Hgap.
  rewrite !plus_IZR, !mult_IZR, minus_IZR in Hgap.
  set (c := IZR (count_at row_counts r)) in *.
  set (s := sqrt 3) in *.
  set (u := 2 * (IZR k1 - IZR k2) + 2 * IZR m + 1 - 0) in *.
  replace (-0.5 * (c - 1) * 8.0 + IZR k1 * 8.0 -
           (-0.5 * (c + 2 * IZR m + 1 - 1) * 8.0 + IZR k2 * 8.0))
    with (4 * u) by (unfold u; lra).
  replace ((0.5 * (13 - 1) - IZR r) * (s / 2 * 8.0) -
           (0.5 * (13 - 1) - (IZR r + 1)) * (s / 2 * 8.0))
    with (4 * s) by lra.
  nra.
Qed.

Lemma row_points_spacing (r1 k1 r2 k2 : Z) :
  (0 <= r1 <= 12)%Z -> (0 <= r2 <= 12)%Z ->
  (r1, k1) <> (r2, k2) ->
  PMT_distance_bottom * PMT_distance_bottom <=
  dist2 (row_point r1 k1) (row_point r2 k2).
Proof.
  intros Hr1 Hr2 Hne.
  destruct (Z.eq_dec r1 r2) as [-> | Hr].
  - assert (k1 <> k2) as Hk by congruence.
    pose proof (IZR_gap k1 k2 Hk).
    unfold dist2, row_point, PMT_distance_bottom. cbn [fst snd]. nra.
  - destruct (Z.eq_dec r2 (r1 + 1)) as [-> | Hn1];
      [apply row_points_spacing_next; lia|].
    destruct (Z.eq_dec r1 (r2 + 1)) as [-> | Hn2];
      [rewrite dist2_sym; apply row_points_spacing_next; lia|].
    unfold dist2, row_point, PMT_distance_bottom. cbn [fst snd].
    pose proof (sqrt_sqrt 3 ltac:(lra)) as H3.
    assert (2 <= IZR r1 - IZR r2 \/ IZR r1 - IZR r2 <= -2) as Hgap.
    { destruct (Z.lt_trichotomy r1 r2) as [Hlt | [Heq | Hgt]]; [right|contradiction|left].
      - assert (r1 + 2 <= r2)%Z as Hle by lia. apply IZR_le in Hle.
        rewrite plus_IZR in Hle. lra.
      - assert (r2 + 2 <= r1)%Z as Hle by lia. apply IZR_le in Hle.
        rewrite plus_IZR in Hle. lra. }
    set (dx := row_offset r1 + IZR k1 * 8.0 - (row_offset r2 + IZR k2 * 8.0)).
    assert (0 <= dx * dx) by nra.
    replace (((0.5 * (IZR 13 - 1) - IZR r1) * (sqrt 3 / 2 * 8.0) -
              (0.5 * (IZR 13 - 1) - IZR r2) * (sqrt 3 / 2 * 8.0)) *
             ((0.5 * (IZR 13 - 1) - IZR r1) * (sqrt 3 / 2 * 8.0) -
              (0.5 * (IZR 13 - 1) - IZR r2) * (sqrt 3 / 2 * 8.0)))
      with ((IZR r1 - IZR r2) * (IZR r1 - IZR r2) * 16 * (sqrt 3 * sqrt 3)) by lra.
    rewrite H3. destruct Hgap; nra.
Qed.

Lemma bottom_numbers_spaced (n n' : Z) :
  (128 <= n <= 248)%Z -> (128 <= n' <= 248)%Z -> n <> n' ->
  exists p p',
    get_pmt_positions_bottom n = Ok p /\
    get_pmt_positions_bottom n' = Ok p' /\
    PMT_distance_bottom <= sqrt (dist2 p p').
Proof.
  intros Hn Hn' Hne.
  destruct (bottom_locate n Hn) as (r & k & Hr & _ & _ & Hdec & _ & Heq).
  destruct (bottom_locate n' Hn') as (r' & k' & Hr' & _ & _ & Hdec' & _ & Heq').
  exists (row_point r k), (row_point r' k').
  split; [assumption|]. split; [assumption|].
  rewrite <- (sqrt_square PMT_distance_bottom) at 1
    by (unfold PMT_distance_bottom; lra).
  apply sqrt_le_1_alt. apply row_points_spacing; try assumption.
  intros [= -> ->]. lia.
Qed.



Open Scope Z_scope.

Open Scope R_scope.

(** ** Orientation of the outer ring *)






Open Scope Z_scope.

(** ** Symmetry and reach of the assembled list *)

(** X13: in the assembled list the bottom channels [127 + i] and [247 - i]
    are at opposite points. *)
Theorem bottom_channels_opposite (i : Z) :
  0 <= i <= 120 ->
  exists x y,
    pmt_position (127 + i) = Ok (x, y) /\
    pmt_position (247 - i) = Ok ((- x)%R, (- y)%R).
Proof.
  intros Hi.
  replace (247 - i) with (127 + (120 - i)) by lia.
  rewrite !pmt_position_bottom by lia. unfold bottom_channel.
  destruct (bottom_mirror_numbers (128 + i) ltac:(lia)) as (x & y & Hp & Hq).
  replace (128 + (120 - i)) with (376 - (128 + i)) by lia.
  rewrite Hp, Hq. cbn [returned].
  exists (fst (rotate (x, y) rotation_angle_bottom)),
         (snd (rotate (x, y) rotation_angle_bottom)).
  split; [now destruct (rotate (x, y) rotation_angle_bottom)|].
  now rewrite rotate_opp.
Qed.

Lemma bottom_channels_opposite_witness :
  exists x y,
    pmt_position (127 + 0) = Ok (x, y) /\
    pmt_position (247 - 0) = Ok ((- x)%R, (- y)%R).
Proof. apply (bottom_channels_opposite 0). lia. Defined.

(** ** Reach *)

Lemma row_point_reach (r k : Z) :
  0 <= r <= 12 -> 0 <= k < count_at row_counts r ->
  (fst (row_point r k) * fst (row_point r k) +
   snd (row_point r k) * snd (row_point r k) <= 1984)%R.
Proof.
  intros Hr Hk.
  unfold row_point, row_offset, PMT_distance_bottom. cbn [fst snd].
  pose proof (sqrt_sqrt 3 ltac:(lra)) as H3.
  assert (0 <= IZR k <= IZR (count_at row_counts r) - 1)%R as HK.
  { split; [apply IZR_le; lia|].
    assert (k <= count_at row_counts r - 1) as H by lia.
    apply IZR_le in H. rewrite minus_IZR in H. exact H. }
  set (K := IZR k) in *. set (s := sqrt 3) in *.
  assert (r = 0 \/ r = 1 \/ r = 2 \/ r = 3 \/ r = 4 \/ r = 5 \/ r = 6 \/
          r = 7 \/ r = 8 \/ r = 9 \/ r = 10 \/ r = 11 \/ r = 12) as Hcase by lia.
  repeat destruct Hcase as [-> | Hcase]; try subst r;
    match goal with
    | H : context [count_at row_counts ?n] |- _ =>
        let c := eval vm_compute in (count_at row_counts n) in
        change (count_at row_counts n) with c in *
    end; nra.
Qed.

Lemma norm_rotate (p : position) (angle : R) : norm (rotate p angle) = norm p.
Proof.
  unfold norm.
  pose proof (dist2_rotate p (0, 0)%R angle) as H.
  rewrite rotate_origin in H. unfold dist2 in H. cbn [fst snd] in H.
  rewrite !Rminus_0_r in H. now rewrite H.
Qed.

Lemma channel_reach (ch : Z) :
  0 <= ch <= 247 ->
  exists p, pmt_position ch = Ok p /\ (norm p <= 6 * PMT_distance_top)%R.
Proof.
  intros Hch. destruct (Z.le_gt_cases ch 126) as [Htop | Hbot].
  - exists (top_channel ch). split; [apply pmt_position_top; lia|].
    unfold top_channel. rewrite norm_rotate.
    destruct (top_locate (127 - ch) ltac:(lia)) as (r & w & Hr & _ & _ & _ & ->).
    cbn [returned]. rewrite norm_ring_point by lia.
    assert (IZR r <= 6)%R by (apply IZR_le; lia).
    unfold PMT_distance_top. lra.
  - exists (bottom_channel (ch - 127)). split.
    { replace ch with (127 + (ch - 127)) at 1 by lia.
      apply pmt_position_bottom. lia. }
    unfold bottom_channel. rewrite norm_rotate.
    destruct (bottom_locate (128 + (ch - 127)) ltac:(lia))
      as (r & k & Hr & _ & _ & _ & Hk & ->).
    cbn [returned]. unfold norm.
    pose proof (row_point_reach r k Hr Hk) as Hreach.
    unfold PMT_distance_top.
    rewrite <- (sqrt_square (6 * 7.95)) by lra.
    apply sqrt_le_1_alt. lra.
Qed.



Lemma coordinates_le_norm (p : position) :
  (Rabs (fst p) <= norm p /\ Rabs (snd p) <= norm p)%R.
Proof.
  unfold norm. split.
  - rewrite <- sqrt_Rsqr_abs. apply sqrt_le_1_alt. unfold Rsqr. nra.
  - rewrite <- sqrt_Rsqr_abs. apply sqrt_le_1_alt. unfold Rsqr. nra.
Qed.

(** X15: the bodies of two PMTs of one array never overlap: their centres
    are more than two outer ring radii apart. *)
Theorem pmt_bodies_disjoint (c1 c2 : Z) :
  c1 <> c2 -> same_array c1 c2 ->
  exists p1 p2,
    pmt_position c1 = Ok p1 /\ pmt_position c2 = Ok p2 /\
    (2 * PMTOuterRingRadius < sqrt (dist2 p1 p2))%R.
Proof.
  intros Hne [[H1 H2] | [H1 H2]].
  - exists (top_channel c1), (top_channel c2).
    rewrite !pmt_position_top by assumption.
    split; [reflexivity|]. split; [reflexivity|].
    unfold top_channel. rewrite dist2_rotate.
    destruct (top_numbers_spaced (127 - c1) (127 - c2)) as (p & p' & -> & -> & Hd);
      try lia.
    cbn [returned]. unfold PMTOuterRingRadius, PMT_distance_top in *. lra.
  - exists (bottom_channel (c1 - 127)), (bottom_channel (c2 - 127)).
    rewrite <- !pmt_position_bottom by lia.
    replace (127 + (c1 - 127)) with c1 by lia.
    replace (127 + (c2 - 127)) with c2 by lia.
    split; [reflexivity|]. split; [reflexivity|].
    unfold bottom_channel. rewrite dist2_rotate.
    destruct (bottom_numbers_spaced (128 + (c1 - 127)) (128 + (c2 - 127)))
      as (p & p' & -> & -> & Hd); try lia.
    cbn [returned]. unfold PMTOuterRingRadius, PMT_distance_bottom in *. lra.
Qed.

Lemma pmt_bodies_disjoint_witness :
  exists p1 p2,
    pmt_position 0 = Ok p1 /\ pmt_position 1 = Ok p2 /\
    (2 * PMTOuterRingRadius < sqrt (dist2 p1 p2))%R.
Proof.
  apply (pmt_bodies_disjoint 0 1).
  - discriminate.
  - left. split; split; discriminate.
Defined.

(** ** Subscripts of the assembled list *)

Lemma getitem_pmt_locations (locs : list location) (ch : Z) :
  pmt_locations = Ok locs -> 0 <= ch <= 247 ->
  exists p, pmt_position ch = Ok p /\ getitem locs ch = Ok (as_location p).
Proof.
  intros Hlocs Hch.
  assert (exists p, pmt_position ch = Ok p /\
                    (p = top_channel ch /\ 0 <= ch <= 126 \/
                     p = bottom_channel (ch - 127) /\ 127 <= ch)) as (p & Hp & _).
  { destruct (Z.le_gt_cases ch 126).
    - exists (top_channel ch). split; [apply pmt_position_top; lia | left; split; [reflexivity | lia]].
    - exists (bottom_channel (ch - 127)). split; [|right; split; [reflexivity | lia]].
      replace ch with (127 + (ch - 127)) at 1 by lia.
      apply pmt_position_bottom. lia. }
  exists p. split; [assumption|].
  unfold pmt_position in Hp. rewrite Hlocs in Hp. cbn [bind] in Hp.
  destruct (getitem locs ch) as [l| |]; cbn [bind] in Hp; try discriminate.
  injection Hp as <-. now destruct l.
Qed.

Lemma getitem_outside {A : Type} (l : list A) (i : Z) :
  i < - len l \/ len l <= i -> getitem l i = Raise IndexError.
Proof.
  intros H. unfold getitem, norm_index.
  assert (0 <= len l) by (unfold len; lia).
  destruct (Z.ltb_spec i 0).
  - destruct (Z.leb_spec 0 (i + len l)); [lia | reflexivity].
  - destruct (Z.ltb_spec i (len l)); [lia|]. now rewrite andb_false_r.
Qed.

Lemma getitem_from_end {A : Type} (l : list A) (i : Z) :
  0 <= i < len l -> getitem l (i - len l) = getitem l i.
Proof.
  intros H. unfold getitem, norm_index.
  destruct (Z.ltb_spec (i - len l) 0); [|lia].
  destruct (Z.ltb_spec i 0); [lia|].
  now replace (i - len l + len l) with i by lia.
Qed.

(** X16: the assembled list is subscripted as a Python list: a channel
    from 248 on, or below -248, raises [IndexError], and [ch - 248] names
    the same entry as [ch] for the channels 0 to 247. *)
Theorem pmt_position_subscripts (ch ch' : Z) :
  ch < -248 \/ 248 <= ch -> 0 <= ch' <= 247 ->
  pmt_position ch = Raise IndexError /\
  (exists p, pmt_position ch' = Ok p /\ pmt_position (ch' - 248) = Ok p).
Proof.
  intros Hout Hin.
  destruct pmt_locations_length as (locs & Hlocs & Hlen).
  unfold pmt_position. rewrite Hlocs. cbn [bind]. split.
  - rewrite getitem_outside by lia. reflexivity.
  - rewrite <- Hlen, getitem_from_end by lia.
    destruct (getitem_pmt_locations locs ch' Hlocs Hin) as (p & _ & ->).
    exists p. cbn [bind]. now destruct p.
Qed.

Lemma pmt_position_subscripts_witness :
  pmt_position 248 = Raise IndexError /\
  (exists p, pmt_position 247 = Ok p /\ pmt_position (247 - 248) = Ok p).
Proof. apply (pmt_position_subscripts 248 247); lia. Defined.

(** ** The plots *)

Lemma for_each_append_flat {A B : Type} (step : list B -> A -> result (list B))
  (g : A -> list B) (l : list A) :
  (forall acc a, In a l -> step acc a = Ok (acc ++ g a)) ->
  forall acc, for_each l step acc = Ok (acc ++ flat_map g l).
Proof.
  induction l as [|a t IH]; intros H acc; simpl.
  - now rewrite app_nil_r.
  - rewrite (H acc a) by now left. simpl.
    rewrite IH by (intros; apply H; now right).
    now rewrite <- app_assoc.
Qed.

Lemma xs_ys_top_value :
  xs_top = Ok (map (fun i => fst (top_channel (126 - i))) (range 0 127)) /\
  ys_top = Ok (map (fun i => snd (top_channel (126 - i))) (range 0 127)).
Proof.
  unfold xs_top, ys_top. rewrite positions_top_value. cbn [bind].
  rewrite !map_map. unfold range. rewrite !map_map. cbn [Z.sub Z.to_nat].
  split; f_equal; apply map_ext; intros k; unfold top_channel;
    do 3 f_equal; lia.
Qed.

Lemma xs_ys_bottom_value :
  xs_bottom = Ok (map (fun i => fst (bottom_channel i)) (range 0 121)) /\
  ys_bottom = Ok (map (fun i => snd (bottom_channel i)) (range 0 121)).
Proof.
  unfold xs_bottom, ys_bottom. rewrite positions_bottom_value. cbn [bind].
  rewrite !map_map. unfold range. rewrite !map_map. cbn [Z.sub Z.to_nat].
  split; f_equal; apply map_ext; intros k; unfold bottom_channel;
    do 3 f_equal; lia.
Qed.

Lemma in_labels (xs ys : list R) (label : Z -> artist) (n : Z) (t : string)
  (xy : position) :
  In (Annotate t xy) ([Scatter xs ys] ++ map label (range 0 n)) <->
  exists i, 0 <= i < n /\ label i = Annotate t xy.
Proof.
  rewrite in_app_iff, in_map_iff. split.
  - intros [[H | []] | (i & Hi & Hin)]; [discriminate|].
    apply in_range in Hin. now exists i.
  - intros (i & Hi & Hl). right. exists i. split; [assumption | now apply in_range].
Qed.

(** X17: the two check plots run without error, and their labels are the
    channel numbers of the assembled list: the label [str(ch)] is anchored
    at the position of channel [ch] moved by (-1.5, -0.8), for the channels
    0 to 126 on the top plot and 127 to 247 on the bottom plot, and there
    is no other label. *)
Theorem check_plot_labels :
  exists top bottom,
    check_plot_top = Ok top /\ check_plot_bottom = Ok bottom /\
    (forall t xy,
       In (Annotate t xy) top <->
       exists ch p, 0 <= ch <= 126 /\ pmt_position ch = Ok p /\ t = str ch /\
                    xy = (fst p - 1.5, snd p - 0.8)%R) /\
    (forall t xy,
       In (Annotate t xy) bottom <->
       exists ch p, 127 <= ch <= 247 /\ pmt_position ch = Ok p /\ t = str ch /\
                    xy = (fst p - 1.5, snd p - 0.8)%R).
Proof.
  destruct xs_ys_top_value as [Hxt Hyt].
  destruct xs_ys_bottom_value as [Hxb Hyb].
  unfold check_plot_top, check_plot_bottom.
  rewrite Hxt, Hyt, Hxb, Hyb. cbn [bind]. cbv zeta.
  rewrite (for_each_append_map _
             (fun i => Annotate (str (126 - i))
                         (fst (top_channel (126 - i)) - 1.5,
                          snd (top_channel (126 - i)) - 0.8)%R)).
  2:{ intros acc i Hi. apply in_range in Hi.
      rewrite !getitem_map, !getitem_range by lia. reflexivity. }
  rewrite (for_each_append_map _
             (fun i => Annotate (str (127 + i))
                         (fst (bottom_channel i) - 1.5,
                          snd (bottom_channel i) - 0.8)%R)).
  2:{ intros acc i Hi. apply in_range in Hi.
      rewrite !getitem_map, !getitem_range by lia. reflexivity. }
  eexists. eexists. split; [reflexivity|]. split; [reflexivity|]. split.
  - intros t xy. rewrite in_labels. split.
    + intros (i & Hi & [= <- <-]). exists (126 - i), (top_channel (126 - i)).
      split; [lia|]. split; [apply pmt_position_top; lia|]. now split.
    + intros (ch & p & Hch & Hp & -> & ->). exists (126 - ch).
      rewrite pmt_position_top in Hp by lia. injection Hp as <-.
      split; [lia|]. replace (126 - (126 - ch)) with ch by lia. reflexivity.
  - intros t xy. rewrite in_labels. split.
    + intros (i & Hi & [= <- <-]). exists (127 + i), (bottom_channel i).
      split; [lia|]. split; [apply pmt_position_bottom; lia|]. now split.
    + intros (ch & p & Hch & Hp & -> & ->). exists (ch - 127).
      replace ch with (127 + (ch - 127)) in Hp at 1 by lia.
      rewrite pmt_position_bottom in Hp by lia. injection Hp as <-.
      split; [lia|]. replace (127 + (ch - 127)) with ch by lia. reflexivity.
Qed.

Lemma pmt_position_centre (ch : Z) :
  0 <= ch <= 247 -> pmt_position ch = Ok (channel_centre ch).
Proof.
  intros H. unfold channel_centre. destruct (Z.leb_spec ch 126).
  - apply pmt_position_top. lia.
  - replace ch with (127 + (ch - 127)) at 1 by lia.
    apply pmt_position_bottom. lia.
Qed.

Lemma getitem_locations (ch : Z) :
  0 <= ch <= 247 ->
  getitem (map (fun i => as_location (top_channel i)) (range 0 127) ++
           map (fun i => as_location (bottom_channel i)) (range 0 121)) ch =
  Ok (as_location (channel_centre ch)).
Proof.
  intros H. unfold channel_centre. destruct (Z.leb_spec ch 126).
  - rewrite getitem_app_l by (rewrite len_map, len_range; lia).
    rewrite getitem_map, getitem_range by lia. reflexivity.
  - replace ch with (len (map (fun i => as_location (top_channel i)) (range 0 127))
                     + (ch - 127)) at 1
      by (rewrite len_map, len_range; lia).
    rewrite getitem_app_r by (rewrite len_map, len_range; lia).
    rewrite getitem_map, getitem_range by lia. reflexivity.
Qed.

Lemma final_plot_top_artists :
  exists f, final_plot_top = Ok f /\
    fig_xlim f = (IZR (-60), IZR 60) /\ fig_ylim f = (IZR (-60), IZR 60) /\
    fig_artists f =
      flat_map (drawn_channel 1.4 channel_centre) (range 0 127) ++ decorations.
Proof.
  unfold final_plot_top. rewrite pmt_locations_value. cbn [bind]. cbv zeta.
  rewrite (for_each_append_flat _ (drawn_channel 1.4 channel_centre)).
  - cbn [bind app]. eexists. split; [reflexivity|]. cbn. repeat split.
  - intros acc ch Hch. apply in_range in Hch.
    rewrite getitem_locations by lia. cbn [bind].
    unfold drawn_channel, as_location. cbn [loc_x loc_y].
    rewrite <- app_assoc. cbn [app].
    now destruct (channel_centre ch).
Qed.

Lemma final_plot_bottom_artists :
  exists f, final_plot_bottom = Ok f /\
    fig_xlim f = (IZR (-60), IZR 60) /\ fig_ylim f = (IZR (-60), IZR 60) /\
    fig_artists f =
      flat_map (drawn_channel 1.7 channel_centre) (range 127 248) ++ decorations.
Proof.
  unfold final_plot_bottom. rewrite pmt_locations_value. cbn [bind]. cbv zeta.
  rewrite (for_each_append_flat _ (drawn_channel 1.7 channel_centre)).
  - cbn [bind app]. eexists. split; [reflexivity|]. cbn. repeat split.
  - intros acc ch Hch. apply in_range in Hch.
    rewrite getitem_locations by lia. cbn [bind].
    unfold drawn_channel, as_location. cbn [loc_x loc_y].
    rewrite <- app_assoc. cbn [app].
    now destruct (channel_centre ch).
Qed.

Lemma in_drawn_circle (dx : R) (lo hi : Z) (c : position) (rad : R) :
  In (Circle c rad) (flat_map (drawn_channel dx channel_centre) (range lo hi) ++ decorations) <->
  rad = PMTOuterRingRadius /\ exists ch, lo <= ch < hi /\ channel_centre ch = c.
Proof.
  rewrite in_app_iff, in_flat_map. split.
  - intros [(ch & Hch & Hin) | Hdec].
    + apply in_range in Hch. destruct Hin as [H | [H | []]]; [|discriminate].
      injection H as <- <-. split; [reflexivity|]. now exists ch.
    + destruct Hdec as [H | [H | [H | []]]]; discriminate.
  - intros (-> & ch & Hch & <-). left. exists ch.
    split; [now apply in_range | now left].
Qed.

Lemma in_drawn_label (dx : R) (lo hi : Z) (t : string) (xy : position) :
  In (Annotate t xy) (flat_map (drawn_channel dx channel_centre) (range lo hi) ++ decorations) <->
  exists ch, lo <= ch < hi /\ t = str ch /\
    xy = (fst (channel_centre ch) - dx, snd (channel_centre ch) - 0.8)%R.
Proof.
  rewrite in_app_iff, in_flat_map. split.
  - intros [(ch & Hch & Hin) | Hdec].
    + apply in_range in Hch. destruct Hin as [H | [H | []]]; [discriminate|].
      injection H as <- <-. now exists ch.
    + destruct Hdec as [H | [H | [H | []]]]; discriminate.
  - intros (ch & Hch & -> & ->). left. exists ch.
    split; [now apply in_range | right; now left].
Qed.

(** X18: the two final plots run without error; the circles of the top
    plot are exactly the circles of radius [PMTOuterRingRadius] centred at
    the positions of the channels 0 to 126 and its labels are [str(ch)] at
    the position of [ch] moved by (-1.4, -0.8); the bottom plot has the
    channels 127 to 247, with labels moved by (-1.7, -0.8). *)
Theorem final_plots_drawn :
  exists ft fb,
    final_plot_top = Ok ft /\ final_plot_bottom = Ok fb /\
    (forall c rad,
       In (Circle c rad) (fig_artists ft) <->
       rad = PMTOuterRingRadius /\ exists ch, 0 <= ch <= 126 /\ pmt_position ch = Ok c) /\
    (forall t xy,
       In (Annotate t xy) (fig_artists ft) <->
       exists ch p, 0 <= ch <= 126 /\ pmt_position ch = Ok p /\ t = str ch /\
                    xy = (fst p - 1.4, snd p - 0.8)%R) /\
    (forall c rad,
       In (Circle c rad) (fig_artists fb) <->
       rad = PMTOuterRingRadius /\ exists ch, 127 <= ch <= 247 /\ pmt_position ch = Ok c) /\
    (forall t xy,
       In (Annotate t xy) (fig_artists fb) <->
       exists ch p, 127 <= ch <= 247 /\ pmt_position ch = Ok p /\ t = str ch /\
                    xy = (fst p - 1.7, snd p - 0.8)%R).
Proof.
  destruct final_plot_top_artists as (ft & Hft & _ & _ & Hat).
  destruct final_plot_bottom_artists as (fb & Hfb & _ & _ & Hab).
  exists ft, fb. split; [assumption|]. split; [assumption|].
  rewrite Hat, Hab.
  split; [|split; [|split]].
  - intros c rad. rewrite in_drawn_circle. split.
    + intros (-> & ch & Hch & <-). split; [reflexivity|]. exists ch.
      split; [lia | apply pmt_position_centre; lia].
    + intros (-> & ch & Hch & Hp). split; [reflexivity|]. exists ch.
      split; [lia|]. rewrite pmt_position_centre in Hp by lia. congruence.
  - intros t xy. rewrite in_drawn_label. split.
    + intros (ch & Hch & -> & ->). exists ch, (channel_centre ch).
      split; [lia|]. split; [apply pmt_position_centre; lia|]. now split.
    + intros (ch & p & Hch & Hp & -> & ->). exists ch.
      rewrite pmt_position_centre in Hp by lia. injection Hp as <-.
      split; [lia|]. now split.
  - intros c rad. rewrite in_drawn_circle. split.
    + intros (-> & ch & Hch & <-). split; [reflexivity|]. exists ch.
      split; [lia | apply pmt_position_centre; lia].
    + intros (-> & ch & Hch & Hp). split; [reflexivity|]. exists ch.
      split; [lia|]. rewrite pmt_position_centre in Hp by lia. congruence.
  - intros t xy. rewrite in_drawn_label. split.
    + intros (ch & Hch & -> & ->). exists ch, (channel_centre ch).
      split; [lia|]. split; [apply pmt_position_centre; lia|]. now split.
    + intros (ch & p & Hch & Hp & -> & ->). exists ch.
      rewrite pmt_position_centre in Hp by lia. injection Hp as <-.
      split; [lia|]. now split.
Qed.

Lemma centre_inside (ch : Z) :
  0 <= ch <= 247 ->
  (IZR (-60) <= fst (channel_centre ch) - PMTOuterRingRadius /\
   fst (channel_centre ch) + PMTOuterRingRadius <= IZR 60 /\
   IZR (-60) <= snd (channel_centre ch) - PMTOuterRingRadius /\
   snd (channel_centre ch) + PMTOuterRingRadius <= IZR 60)%R.
Proof.
  intros Hch.
  destruct (channel_reach ch Hch) as (p & Hp & Hreach).
  rewrite pmt_position_centre in Hp by assumption. injection Hp as <-.
  destruct (coordinates_le_norm (channel_centre ch)) as [Hx Hy].
  apply Rabs_le_between in Hx, Hy.
  unfold PMT_distance_top, PMTOuterRingRadius in *. lra.
Qed.

(** X19: every circle of the two final plots lies inside the axes, which
    run from [-plot_radius] to [plot_radius] in x and in y. *)
Theorem final_plots_inside_axes :
  exists ft fb,
    final_plot_top = Ok ft /\ final_plot_bottom = Ok fb /\
    (forall c rad, In (Circle c rad) (fig_artists ft) -> inside_axes ft c rad) /\
    (forall c rad, In (Circle c rad) (fig_artists fb) -> inside_axes fb c rad).
Proof.
  destruct final_plot_top_artists as (ft & Hft & Hxt & Hyt & Hat).
  destruct final_plot_bottom_artists as (fb & Hfb & Hxb & Hyb & Hab).
  exists ft, fb. split; [assumption|]. split; [assumption|].
  unfold inside_axes. rewrite Hat, Hab, Hxt, Hyt, Hxb, Hyb. cbn [fst snd].
  split; intros c rad Hin; apply in_drawn_circle in Hin;
    destruct Hin as (-> & ch & Hch & <-); apply centre_inside; lia.
Qed.

(** ** Rotations of the top array onto itself *)





